(** * word-fill-js: the sentence generation core of [server/routers.ts]

    A shallow embedding of [generateSentenceForWord], [createPrompt],
    [callDeepSeekAPI], [extractSentence], [generateFallbackSentence] and the
    [generateBatch] handler, with the properties of the specification stated
    over it.

    Conventions of the embedding.

    - A JavaScript string is a [list ascii], one [ascii] per UTF-16 code
      unit, for code units 0..255 (the Latin-1 range).  Case mapping,
      white space and the regular expression classes below are those of
      ECMAScript on that range.  The Chinese messages and prompt lines of
      the source are kept as constants holding the bytes of the source
      file; nothing below inspects them beyond equality and emptiness.
    - [Math.floor(Math.random() * n)] is an index below [n]; it is modelled
      as the next draw of the world reduced modulo [n].  Floating point is
      not modelled.
    - Exceptions are values: a computation yields [Normal v] or [Throw e]. *)

From Stdlib Require Import Ascii String DecimalString List Bool Arith Lia ZArith Permutation.
Import ListNotations.


(* ================================================================== *)
(** ** Code units and strings *)

Module Js.

Definition jsString := list ascii.

(** A string literal of the source. *)
Definition str (s : string) : jsString := list_ascii_of_string s.

Definition code (c : ascii) : nat := nat_of_ascii c.

Definition between (lo hi : nat) (c : ascii) : bool :=
  (lo <=? code c) && (code c <=? hi).

Definition DQUOTE : ascii := ascii_of_nat 34.
Definition SQUOTE : ascii := ascii_of_nat 39.
Definition BACKSLASH : ascii := ascii_of_nat 92.
Definition SPACE : ascii := ascii_of_nat 32.
Definition UNDERSCORE : ascii := ascii_of_nat 95.

(** WhiteSpace and LineTerminator code units: what [trim] strips and what
    the class [\s] contains (TAB, LF, VT, FF, CR, SP, NBSP). *)
Definition isWhiteSpace (c : ascii) : bool :=
  between 9 13 c || (code c =? 32) || (code c =? 160).

(** The class [\w] without the unicode flag: [A-Za-z0-9_]. *)
Definition isWordChar (c : ascii) : bool :=
  between 65 90 c || between 97 122 c || between 48 57 c || (code c =? 95).

(** What [.] refuses without the dotAll flag. *)
Definition isLineTerminator (c : ascii) : bool :=
  (code c =? 10) || (code c =? 13).

(** [String.prototype.toLowerCase], one code unit. *)
Definition toLowerCaseUnit (c : ascii) : ascii :=
  if between 65 90 c || (between 192 222 c && negb (code c =? 215))
  then ascii_of_nat (code c + 32) else c.

Definition toLowerCase (s : jsString) : jsString := map toLowerCaseUnit s.

(** [Canonicalize] of a case-insensitive pattern without the unicode flag:
    the upper case of the code unit when that is a single code unit. On
    0..255 the code units 181, 223 and 255 stay as they are. *)
Definition canonicalize (c : ascii) : ascii :=
  if between 97 122 c || (between 224 254 c && negb (code c =? 247))
  then ascii_of_nat (code c - 32) else c.

Definition eqUnit (a b : ascii) : bool := Ascii.eqb a b.

Fixpoint eqString (a b : jsString) : bool :=
  match a, b with
  | [], [] => true
  | x :: a', y :: b' => eqUnit x y && eqString a' b'
  | _, _ => false
  end.

(** [s.startsWith(p)] *)
Fixpoint startsWith (p s : jsString) : bool :=
  match p, s with
  | [], _ => true
  | x :: p', y :: s' => eqUnit x y && startsWith p' s'
  | _ :: _, [] => false
  end.

(** [s.endsWith(p)] *)
Definition endsWith (p s : jsString) : bool := startsWith (rev p) (rev s).

(** [s.includes(p)] *)
Fixpoint includes (p s : jsString) : bool :=
  startsWith p s ||
  match s with
  | [] => false
  | _ :: s' => includes p s'
  end.



Fixpoint trimStart (s : jsString) : jsString :=
  match s with
  | c :: s' => if isWhiteSpace c then trimStart s' else s
  | [] => []
  end.

Definition trimEnd (s : jsString) : jsString := rev (trimStart (rev s)).

(** [s.trim()] *)
Definition trim (s : jsString) : jsString := trimEnd (trimStart s).

(** [s.slice(0, -1)] *)
Definition dropLast (s : jsString) : jsString := removelast s.

(** [s.slice(1, -1)] *)
Definition sliceInner (s : jsString) : jsString := removelast (tl s).

(** [s.split(' ')]: never empty, [[""]] for the empty string. *)
Fixpoint splitSpace (s : jsString) : list jsString :=
  match s with
  | [] => [[]]
  | c :: s' =>
      if eqUnit c SPACE then [] :: splitSpace s'
      else match splitSpace s' with
           | w :: ws => (c :: w) :: ws
           | [] => [[c]]
           end
  end.

(** [words.join(' ')] *)
Fixpoint joinSpace (ws : list jsString) : jsString :=
  match ws with
  | [] => []
  | [w] => w
  | w :: ws' => w ++ SPACE :: joinSpace ws'
  end.

(** [words.splice(pos, 0, item)] *)
Definition spliceInsert (pos : nat) (item : jsString) (ws : list jsString)
  : list jsString :=
  firstn pos ws ++ item :: skipn pos ws.

(** [s.replace(/\s+/g, ' ')]; [inRun] tells that the previous code unit was
    white space, already rendered as one space. *)
Fixpoint collapseFrom (inRun : bool) (s : jsString) : jsString :=
  match s with
  | [] => []
  | c :: s' =>
      if isWhiteSpace c
      then (if inRun then collapseFrom true s' else SPACE :: collapseFrom true s')
      else c :: collapseFrom false s'
  end.

Definition collapseWhiteSpace (s : jsString) : jsString := collapseFrom false s.

(** [/[.!?]$/.test(s)] *)
Definition isTerminal (c : ascii) : bool :=
  (code c =? 46) || (code c =? 33) || (code c =? 63).

Definition endsWithTerminal (s : jsString) : bool :=
  match rev s with
  | c :: _ => isTerminal c
  | [] => false
  end.

(** Decimal rendering of a number in a template literal. *)
Definition decimal (n : nat) : jsString :=
  str (NilEmpty.string_of_uint (Nat.to_uint n)).

End Js.

Import Js.


(* ================================================================== *)
(** ** Completions: a value or a thrown value *)

(** What a [throw] carries: an [Error] object with its [message], or a value
    that is not an instance of [Error]. *)
Inductive JsThrown :=
| ErrorObject (message : jsString)
| NonError.

Inductive Completion (A : Type) :=
| Normal (a : A)
| Throw (e : JsThrown).

Arguments Normal {A} a.
Arguments Throw {A} e.

(** Faults the engine raises by itself; the wording of their message is the
    engine's. *)
Inductive EngineFault :=
| InvalidRegExp (source : jsString)
| ReadOfNullish (key : jsString)
| NotAFunction (key : jsString).

(* ================================================================== *)
(** ** Regular expressions: [new RegExp(source, 'i')]

    The fragment interpreted here: pattern characters, [.], identity
    escapes, [\b] and [\B], and the quantifiers [*], [+], [?] with their
    lazy forms.  A source using anything else (groups, classes,
    alternation, braces, anchors, other escapes) is handed to the host
    engine, a parameter of the model. *)

Module RegExp.

Inductive atom :=
| Lit (c : ascii)
| AnyChar.

Inductive quantifier := Once | ZeroOrMore | OneOrMore | ZeroOrOne.

Inductive term :=
| WordBoundary (positive : bool)
| Atom (a : atom) (q : quantifier) (greedy : bool).

Inductive token :=
| TChar (c : ascii)
| TDot
| TBoundary (positive : bool)
| TQuant (q : quantifier)
| TBeyond
| TTrailingBackslash.

Definition isAlphaNum (c : ascii) : bool :=
  between 65 90 c || between 97 122 c || between 48 57 c.

(** The token of the character after a backslash. *)
Definition escapeToken (e : ascii) : token :=
  if code e =? 98 then TBoundary true
  else if code e =? 66 then TBoundary false
  else if isAlphaNum e then TBeyond
  else TChar e.

(** [( ) [ ] { } | ^ $] *)
Definition isBeyondChar (c : ascii) : bool :=
  (code c =? 40) || (code c =? 41) || (code c =? 91) || (code c =? 93) ||
  (code c =? 123) || (code c =? 125) || (code c =? 124) ||
  (code c =? 94) || (code c =? 36).

Definition charToken (c : ascii) : token :=
  if code c =? 46 then TDot
  else if code c =? 42 then TQuant ZeroOrMore
  else if code c =? 43 then TQuant OneOrMore
  else if code c =? 63 then TQuant ZeroOrOne
  else if isBeyondChar c then TBeyond
  else TChar c.

Fixpoint tokens (src : jsString) : list token :=
  match src with
  | [] => []
  | c :: rest =>
      if eqUnit c BACKSLASH
      then match rest with
           | [] => [TTrailingBackslash]
           | e :: rest' => escapeToken e :: tokens rest'
           end
      else charToken c :: tokens rest
  end.

Inductive parsed :=
| Terms (ts : list term)
| SyntaxError
| Beyond.

Definition consTerm (t : term) (p : parsed) : parsed :=
  match p with
  | Terms ts => Terms (t :: ts)
  | other => other
  end.

(** Terms of a token list; a quantifier with nothing before it to repeat and
    a backslash ending the pattern are syntax errors. *)
Fixpoint build (ts : list token) : parsed :=
  match ts with
  | [] => Terms []
  | TBeyond :: _ => Beyond
  | TTrailingBackslash :: _ => SyntaxError
  | TQuant _ :: _ => SyntaxError
  | TBoundary b :: rest => consTerm (WordBoundary b) (build rest)
  | TChar c :: rest =>
      match rest with
      | TQuant q :: TQuant ZeroOrOne :: rest' => consTerm (Atom (Lit c) q false) (build rest')
      | TQuant q :: rest' => consTerm (Atom (Lit c) q true) (build rest')
      | _ => consTerm (Atom (Lit c) Once true) (build rest)
      end
  | TDot :: rest =>
      match rest with
      | TQuant q :: TQuant ZeroOrOne :: rest' => consTerm (Atom AnyChar q false) (build rest')
      | TQuant q :: rest' => consTerm (Atom AnyChar q true) (build rest')
      | _ => consTerm (Atom AnyChar Once true) (build rest)
      end
  end.

Definition parse (src : jsString) : parsed := build (tokens src).

(** *** Matching *)

Definition atomMatches (a : atom) (c : ascii) : bool :=
  match a with
  | Lit x => eqUnit (canonicalize x) (canonicalize c)
  | AnyChar => negb (isLineTerminator c)
  end.

(** [\b] holds between a word character and a non-word character; the
    ends of the input count as non-word. *)
Definition atWordBoundary (prev : option ascii) (rest : jsString) : bool :=
  xorb (match prev with Some c => isWordChar c | None => false end)
       (match rest with c :: _ => isWordChar c | [] => false end).

Definition orElse {A} (x y : option A) : option A :=
  match x with Some _ => x | None => y end.

(** A continuation receives the code unit before the position and the rest
    of the input, and answers the number of code units it consumed. *)
Definition continuation := option ascii -> jsString -> option nat.

Definition step (a : atom) (k : continuation) (s : jsString) : option nat :=
  match s with
  | c :: s' => if atomMatches a c then option_map S (k (Some c) s') else None
  | [] => None
  end.

(** [a*] followed by [k]: greedy tries one more [a] first, lazy tries [k]
    first. *)
Fixpoint star (a : atom) (greedy : bool) (k : continuation)
  (prev : option ascii) (s : jsString) : option nat :=
  let more :=
    match s with
    | c :: s' => if atomMatches a c
                 then option_map S (star a greedy k (Some c) s') else None
    | [] => None
    end in
  if greedy then orElse more (k prev s) else orElse (k prev s) more.

Fixpoint matchTerms (ts : list term) (prev : option ascii) (s : jsString)
  : option nat :=
  match ts with
  | [] => Some 0
  | WordBoundary positive :: ts' =>
      if Bool.eqb (atWordBoundary prev s) positive
      then matchTerms ts' prev s else None
  | Atom a q greedy :: ts' =>
      match q with
      | Once => step a (matchTerms ts') s
      | ZeroOrOne =>
          if greedy
          then orElse (step a (matchTerms ts') s) (matchTerms ts' prev s)
          else orElse (matchTerms ts' prev s) (step a (matchTerms ts') s)
      | ZeroOrMore => star a greedy (matchTerms ts') prev s
      | OneOrMore => step a (star a greedy (matchTerms ts')) s
      end
  end.

(** The leftmost match: its index and its length. *)
Fixpoint searchFrom (ts : list term) (prev : option ascii) (s : jsString)
  (index : nat) : option (nat * nat) :=
  match matchTerms ts prev s with
  | Some n => Some (index, n)
  | None =>
      match s with
      | c :: s' => searchFrom ts (Some c) s' (S index)
      | [] => None
      end
  end.

(** A compiled pattern: terms of the fragment, or the host's matcher. *)
Inductive pattern :=
| Fragment (ts : list term)
| HostPattern (matcher : jsString -> option (nat * nat)).

(** [pattern.exec(s)], as index and length of the match. *)
Definition exec (p : pattern) (s : jsString) : option (nat * nat) :=
  match p with
  | Fragment ts => searchFrom ts None s 0
  | HostPattern matcher => matcher s
  end.

(** [pattern.test(s)] *)
Definition test (p : pattern) (s : jsString) : bool :=
  match exec p s with Some _ => true | None => false end.

(** [s.replace(pattern, replacement)] for a pattern without the global
    flag and a replacement without [$]. *)
Definition replace (p : pattern) (replacement s : jsString) : jsString :=
  match exec p s with
  | Some (i, n) => firstn i s ++ replacement ++ skipn (i + n) s
  | None => s
  end.

End RegExp.

(* ================================================================== *)
(** ** Values read from a response body *)

(** A value [response.json()] resolves to.  A number is an integer here. *)
#[warnings="-register-all"]
Inductive Json :=
| JNull
| JBool (b : bool)
| JNumber (n : Z)
| JString (s : jsString)
| JArray (items : list Json)
| JObject (fields : list (jsString * Json)).

(** The host: the configuration the module reads when it is loaded and the
    engine services that are taken as parameters. *)
Record Host := {
  DEEPSEEK_API_KEY : jsString;
  (** [new RegExp(source, 'i')] for a source beyond the fragment: [None]
      for a syntax error, otherwise the matcher. *)
  hostRegExp : jsString -> option (jsString -> option (nat * nat));
  (** The message of an error the engine raises. *)
  engineMessage : EngineFault -> jsString;
  (** [JSON.stringify] of a parsed body. *)
  JSON_stringify : Json -> jsString;
  (** [String(Object.prototype[name])] for an inherited property. *)
  renderBuiltin : jsString -> jsString
}.

Definition engineError (host : Host) (f : EngineFault) : JsThrown :=
  ErrorObject (engineMessage host f).

(** [new RegExp(source, 'i')] *)
Definition newRegExp (host : Host) (source : jsString)
  : Completion RegExp.pattern :=
  match RegExp.parse source with
  | RegExp.Terms ts => Normal (RegExp.Fragment ts)
  | RegExp.SyntaxError => Throw (engineError host (InvalidRegExp source))
  | RegExp.Beyond =>
      match hostRegExp host source with
      | Some matcher => Normal (RegExp.HostPattern matcher)
      | None => Throw (engineError host (InvalidRegExp source))
      end
  end.

(** The property names the client reads. *)
Inductive Key := Kchoices | Klength | Kzero | Kmessage | Kcontent.

Definition keyName (k : Key) : jsString :=
  match k with
  | Kchoices => str "choices"
  | Klength => str "length"
  | Kzero => str "0"
  | Kmessage => str "message"
  | Kcontent => str "content"
  end.

Fixpoint lookupField (name : jsString) (fields : list (jsString * Json))
  : option Json :=
  match fields with
  | [] => None
  | (n, v) :: rest => if eqString n name then Some v else lookupField name rest
  end.

(** [v.key] and [v[0]]; [None] is [undefined].  Reading a property of
    [undefined] or [null] is a TypeError. *)
Definition getProperty (host : Host) (v : option Json) (k : Key)
  : Completion (option Json) :=
  match v with
  | None | Some JNull => Throw (engineError host (ReadOfNullish (keyName k)))
  | Some (JObject fields) => Normal (lookupField (keyName k) fields)
  | Some (JArray items) =>
      match k with
      | Klength => Normal (Some (JNumber (Z.of_nat (length items))))
      | Kzero => Normal (nth_error items 0)
      | _ => Normal None
      end
  | Some (JString s) =>
      match k with
      | Klength => Normal (Some (JNumber (Z.of_nat (length s))))
      | Kzero => Normal (match s with c :: _ => Some (JString [c]) | [] => None end)
      | _ => Normal None
      end
  | Some (JBool _) | Some (JNumber _) => Normal None
  end.

(** [!v] *)
Definition isFalsy (v : option Json) : bool :=
  match v with
  | None | Some JNull | Some (JBool false) => true
  | Some (JNumber n) => Z.eqb n 0
  | Some (JString s) => match s with [] => true | _ => false end
  | _ => false
  end.

(** [v === 0] *)
Definition isZero (v : option Json) : bool :=
  match v with
  | Some (JNumber n) => Z.eqb n 0
  | _ => false
  end.

(** [v.trim()] *)
Definition callTrim (host : Host) (v : option Json) : Completion jsString :=
  match v with
  | Some (JString s) => Normal (trim s)
  | None | Some JNull => Throw (engineError host (ReadOfNullish (str "trim")))
  | _ => Throw (engineError host (NotAFunction (str "trim")))
  end.

(* ================================================================== *)
(** ** The world of one call: random draws and the network *)

(** The body of the request, field by field. *)
Record Request := {
  url : jsString;
  authorization : jsString;
  model : jsString;
  systemContent : jsString;
  userContent : jsString;
  max_tokens : nat;
  temperatureHundredths : nat;
  stream : bool
}.

(** [response.json()] *)
Inductive BodyOutcome :=
| BodyRejects (e : JsThrown)
| BodyParsed (v : Json).

(** [fetch(url, init)] *)
Inductive FetchOutcome :=
| FetchRejects (e : JsThrown)
| FetchResponse (status : nat) (body : BodyOutcome).

(** [response.ok] *)
Definition responseOk (status : nat) : bool :=
  (200 <=? status) && (status <=? 299).

Record World := {
  draws : nat -> nat;
  drawn : nat;
  network : Request -> FetchOutcome;
  fetched : list Request
}.

Definition Eff (A : Type) : Type := World -> Completion A * World.

Definition ret {A} (a : A) : Eff A := fun w => (Normal a, w).

Definition throw {A} (e : JsThrown) : Eff A := fun w => (Throw e, w).

Definition bind {A B} (m : Eff A) (f : A -> Eff B) : Eff B :=
  fun w =>
    match m w with
    | (Normal a, w') => f a w'
    | (Throw e, w') => (Throw e, w')
    end.

Definition tryCatch {A} (body : Eff A) (handler : JsThrown -> Eff A) : Eff A :=
  fun w =>
    match body w with
    | (Normal a, w') => (Normal a, w')
    | (Throw e, w') => handler e w'
    end.

Definition lift {A} (c : Completion A) : Eff A := fun w => (c, w).

Notation "x <- m ;; k" := (bind m (fun x => k))
  (at level 61, m at next level, right associativity).

(** The next draw of the world. *)
Definition nextDraw : Eff nat :=
  fun w => (Normal (draws w (drawn w)),
            {| draws := draws w; drawn := S (drawn w);
               network := network w; fetched := fetched w |}).

(** [Math.floor(Math.random() * n)] *)
Definition randomBelow (n : nat) : Eff nat :=
  d <- nextDraw ;; ret (d mod n).

(** [Math.round((Math.random() * 0.4 + 0.5) * 100) / 100], in hundredths:
    a value from 0.50 to 0.90. *)
Definition randomTemperature : Eff nat :=
  d <- nextDraw ;; ret (50 + d mod 41).

(** [await fetch(...)]: the request is recorded, the network answers. *)
Definition fetch (r : Request) : Eff FetchOutcome :=
  fun w => (Normal (network w r),
            {| draws := draws w; drawn := drawn w;
               network := network w; fetched := fetched w ++ [r] |}).

(** [array[Math.floor(Math.random() * array.length)]] *)
Definition pick {A} (items : list A) (default : A) : Eff A :=
  i <- randomBelow (length items) ;; ret (nth i items default).

(* ================================================================== *)
(** ** The program *)

Record SentenceResult := {
  success : bool;
  word : jsString;
  sentence : jsString;
  difficulty : jsString;
  fallback : bool;
  error : option jsString
}.

Definition BLANK : jsString := str "___".

Definition templates : list jsString := [
  str "We need to ___ carefully before making a decision.";
  str "She said that ___ is essential for personal growth.";
  str "In daily life, people often ___ to express their feelings.";
  str "The teacher told us that ___ can help improve our skills.";
  str "When facing challenges, we should ___ with courage.";
  str "He spent a lot of time learning how to ___ properly.";
  str "This experience taught me the importance of ___.";
  str "Many people believe that ___ brings happiness and success."
].

(** [generateFallbackSentence(word)]; the word is not looked at. *)
Definition generateFallbackSentence (word : jsString) : Eff jsString :=
  pick templates [].

(** *** createPrompt *)

Definition styles : list jsString := [
  str "日常對話風格";
  str "商務場景風格";
  str "學術描述風格";
  str "生活故事風格";
  str "新聞報道風格";
  str "科普說明風格";
  str "廣告宣傳風格"
].

Definition contexts : list jsString := [
  str "在購物場景中";
  str "在辦公室環境中";
  str "在學校場景裡";
  str "在家庭環境中";
  str "在社交聚會中";
  str "在旅行過程中";
  str "在運動場景中";
  str "在用餐時間"
].

Definition easyInstruction : jsString :=
  str "使用簡單的日常詞彙和基礎句型，句子結構簡單明了".
Definition mediumInstruction : jsString :=
  str "使用中等難度的詞彙和常見句型，句子邏輯清晰".
Definition hardInstruction : jsString :=
  str "使用較複雜的詞彙和多樣句型（如從句、倒裝等），語境豐富".

(** The own properties of the object literal [difficultyInstructions]. *)
Definition difficultyInstructions : list (jsString * jsString) := [
  (str "easy", easyInstruction);
  (str "medium", mediumInstruction);
  (str "hard", hardInstruction)
].

(** The properties every object literal inherits from [Object.prototype];
    each is a function or an object, hence truthy. *)
Definition objectPrototypeProperties : list jsString := [
  str "constructor";
  str "hasOwnProperty";
  str "isPrototypeOf";
  str "propertyIsEnumerable";
  str "toLocaleString";
  str "toString";
  str "valueOf";
  str "__proto__";
  str "__defineGetter__";
  str "__defineSetter__";
  str "__lookupGetter__";
  str "__lookupSetter__"
].

(** What a property read of [difficultyInstructions] yields. *)
Inductive Looked :=
| OwnText (text : jsString)
| Inherited (name : jsString)
| Undefined.

Fixpoint ownProperty (name : jsString) (table : list (jsString * jsString))
  : option jsString :=
  match table with
  | [] => None
  | (n, v) :: rest => if eqString n name then Some v else ownProperty name rest
  end.

(** [difficultyInstructions[name]]: an own property, else one found on
    the prototype chain, else [undefined]. *)
Definition readInstruction (name : jsString) : Looked :=
  match ownProperty name difficultyInstructions with
  | Some text => OwnText text
  | None =>
      if existsb (eqString name) objectPrototypeProperties
      then Inherited name else Undefined
  end.

(** [difficultyInstructions[difficulty] || difficultyInstructions.medium],
    as the text the template literal interpolates. *)
Definition instructionFor (host : Host) (difficulty : jsString) : jsString :=
  match readInstruction difficulty with
  | OwnText text => match text with [] => mediumInstruction | _ => text end
  | Inherited name => renderBuiltin host name
  | Undefined => mediumInstruction
  end.

Definition LF : ascii := ascii_of_nat 10.

Fixpoint joinLines (lines : list jsString) : jsString :=
  match lines with
  | [] => []
  | [l] => l
  | l :: rest => l ++ LF :: joinLines rest
  end.

Definition variations (selectedStyle selectedContext : jsString)
  : list jsString := [
  str "使用" ++ selectedStyle ++ str "，" ++ selectedContext;
  str "避免使用常見的句子結構，要有創意";
  str "使用不同的語法結構，如被動語態或條件句";
  str "包含時間、地點或人物元素，讓句子更生動";
  str "體現單字在不同語境下的核心用法"
].

Definition promptText (word instruction extraInstruction : jsString)
  : jsString :=
  joinLines [
    [];
    str "請為英語單詞 " ++ DQUOTE :: word ++ DQUOTE :: str " 生成一個獨特的填空練習句子。";
    [];
    str "核心要求：";
    str "1. 句子自然流暢，符合英語語法和表達習慣";
    str "2. 準確體現單詞的核心含義和常用用法";
    str "3. " ++ instruction;
    str "4. 句子長度控制在 15-25 詞之間";
    str "5. 必須用 " ++ DQUOTE :: BLANK ++ DQUOTE ::
      str " 作為填空位置（僅一處填空），且填空處只能填入目標單詞";
    str "6. 避免使用過於生僻的詞彙，確保練習實用性";
    [];
    str "創意要求：";
    str "7. " ++ extraInstruction;
    [];
    str "重要：請發揮創造力，生成與常見模板不同的獨特句子，避免重複相似句式。";
    str "無需額外解釋，僅返回句子本身。";
    [];
    str "單詞: " ++ word;
    str "句子:"
  ].

Definition createPrompt (host : Host) (word difficulty : jsString)
  : Eff jsString :=
  selectedStyle <- pick styles [] ;;
  selectedContext <- pick contexts [] ;;
  let instruction := instructionFor host difficulty in
  extraInstruction <- pick (variations selectedStyle selectedContext) [] ;;
  ret (promptText word instruction extraInstruction).

(** *** callDeepSeekAPI *)

Definition DEEPSEEK_API_URL : jsString :=
  str "https://api.deepseek.com/v1/chat/completions".
Definition DEEPSEEK_MODEL : jsString := str "deepseek-chat".

Definition msgNotConfigured : jsString := str "DEEPSEEK_API_KEY is not configured".
Definition msgInvalidKey : jsString := str "API Key 無效/過期".
Definition msgForbidden : jsString := str "API 權限不足".
Definition msgRateLimited : jsString := str "API 調用頻率超限".
Definition msgServerError : jsString := str "DeepSeek API 服務器內部錯誤".
Definition msgNoContent : jsString := str "API 響應無有效內容".
Definition msgCallFailed : jsString := str "API 調用異常".

Definition msgHttp (host : Host) (status : nat) (errorData : Json) : jsString :=
  str "HTTP " ++ decimal status ++ str ": " ++ JSON_stringify host errorData.

(** [await response.json().catch(() => ({}))] *)
Definition errorDataOf (body : BodyOutcome) : Json :=
  match body with
  | BodyParsed v => v
  | BodyRejects _ => JObject []
  end.

(** The body of the [try] block once [fetch] has answered. *)
Definition readResponse (host : Host) (response : FetchOutcome)
  : Completion jsString :=
  match response with
  | FetchRejects e => Throw e
  | FetchResponse status body =>
      if negb (responseOk status) then
        let errorData := errorDataOf body in
        if status =? 401 then Throw (ErrorObject msgInvalidKey)
        else if status =? 403 then Throw (ErrorObject msgForbidden)
        else if status =? 429 then Throw (ErrorObject msgRateLimited)
        else if status =? 500 then Throw (ErrorObject msgServerError)
        else Throw (ErrorObject (msgHttp host status errorData))
      else
        match body with
        | BodyRejects e => Throw e
        | BodyParsed result =>
            match getProperty host (Some result) Kchoices with
            | Throw e => Throw e
            | Normal choices =>
                if isFalsy choices then Throw (ErrorObject msgNoContent)
                else
                  match getProperty host choices Klength with
                  | Throw e => Throw e
                  | Normal len =>
                      if isZero len then Throw (ErrorObject msgNoContent)
                      else
                        match getProperty host choices Kzero with
                        | Throw e => Throw e
                        | Normal first =>
                            match getProperty host first Kmessage with
                            | Throw e => Throw e
                            | Normal message =>
                                match getProperty host message Kcontent with
                                | Throw e => Throw e
                                | Normal content => callTrim host content
                                end
                            end
                        end
                  end
            end
        end
  end.

Definition callDeepSeekAPI (host : Host) (prompt : jsString) : Eff jsString :=
  match DEEPSEEK_API_KEY host with
  | [] => throw (ErrorObject msgNotConfigured)
  | _ :: _ =>
      randomTemp <- randomTemperature ;;
      let data := {|
        url := DEEPSEEK_API_URL;
        authorization := str "Bearer " ++ DEEPSEEK_API_KEY host;
        model := DEEPSEEK_MODEL;
        systemContent :=
          str "You are a helpful assistant that generates English fill-in-the-blank sentences.";
        userContent := prompt;
        max_tokens := 150;
        temperatureHundredths := randomTemp;
        stream := false
      |} in
      tryCatch
        (response <- fetch data ;; lift (readResponse host response))
        (fun error =>
           match error with
           | ErrorObject _ => throw error
           | NonError => throw (ErrorObject msgCallFailed)
           end)
  end.

(** *** extractSentence *)

(** The class [[.*+?^${}()|[\\]] of the escaping pattern: the thirteen
    characters before the first closing bracket. *)
Definition inEscapeClass (c : ascii) : bool :=
  existsb (eqUnit c) (str ".*+?^${}()|[\").

(** [word.replace(/[.*+?^${}()|[\\]\\\\]/g, '\\$&')].  The pattern of the
    source is a class followed by two backslashes and a closing bracket: it
    matches four code units, and each match is given a backslash in
    front. *)
Fixpoint escapeWord (w : jsString) : jsString :=
  match w with
  | [] => []
  | c :: rest =>
      match rest with
      | b1 :: b2 :: r :: rest' =>
          if inEscapeClass c && eqUnit b1 BACKSLASH && eqUnit b2 BACKSLASH
             && (code r =? 93)
          then BACKSLASH :: c :: b1 :: b2 :: r :: escapeWord rest'
          else c :: escapeWord rest
      | _ => c :: escapeWord rest
      end
  end.

Definition patternSource (word : jsString) : jsString :=
  str "\b" ++ escapeWord word ++ str "\b".

Definition stripQuotes (sentence : jsString) : jsString :=
  if (startsWith [DQUOTE] sentence && endsWith [DQUOTE] sentence) ||
     (startsWith [SQUOTE] sentence && endsWith [SQUOTE] sentence)
  then sliceInner sentence else sentence.

(** The branch taken when the sentence has no blank. *)
Definition placeBlank (host : Host) (sentence word : jsString)
  : Completion jsString :=
  let sentenceLower := toLowerCase sentence in
  match newRegExp host (patternSource word) with
  | Throw e => Throw e
  | Normal pattern =>
      if RegExp.test pattern sentenceLower
      then Normal (RegExp.replace pattern BLANK sentence)
      else
        let words := splitSpace sentence in
        if 3 <? length words
        then
          let insertPos := length words / 2 in
          Normal (joinSpace (spliceInsert insertPos BLANK words))
        else Normal (dropLast sentence ++ str " ___.")
  end.

Definition ensureTerminal (sentence : jsString) : jsString :=
  if negb (endsWithTerminal sentence) then sentence ++ str "." else sentence.

Definition normalizeWhiteSpace (sentence : jsString) : jsString :=
  trim (collapseWhiteSpace sentence).

Definition extractSentence (host : Host) (response word : jsString)
  : Completion jsString :=
  let sentence := stripQuotes (trim response) in
  match (if negb (includes BLANK sentence)
         then placeBlank host sentence word
         else Normal sentence) with
  | Throw e => Throw e
  | Normal sentence => Normal (normalizeWhiteSpace (ensureTerminal sentence))
  end.

(** *** generateSentenceForWord *)

Definition msgWordTooShort : jsString := str "單字長度不能少於 1 個字符".
Definition msgUnknown : jsString := str "Unknown error".

(** [difficulty] is [None] when the argument is left out; the parameter
    then takes its default. *)
Definition generateSentenceForWord (host : Host) (word : jsString)
  (difficultyArg : option jsString) : Eff SentenceResult :=
  let difficulty :=
    match difficultyArg with Some d => d | None => str "medium" end in
  if match word with [] => true | _ => false end || (length word <? 1) then
    sentence <- generateFallbackSentence word ;;
    ret {| success := false;
           error := Some msgWordTooShort;
           word := word;
           difficulty := difficulty;
           fallback := true;
           sentence := sentence |}
  else
    tryCatch
      (prompt <- createPrompt host word difficulty ;;
       response <- callDeepSeekAPI host prompt ;;
       sentence <- lift (extractSentence host response word) ;;
       ret {| success := true;
              word := word;
              sentence := sentence;
              difficulty := difficulty;
              fallback := false;
              error := None |})
      (fun error =>
         fallbackSentence <- generateFallbackSentence word ;;
         ret {| success := false;
                word := word;
                sentence := fallbackSentence;
                difficulty := difficulty;
                fallback := true;
                error := Some match error with
                              | ErrorObject message => message
                              | NonError => msgUnknown
                              end |}).

(** *** generateBatch *)

Module Batch.
Record Result := {
  success : bool;
  results : list SentenceResult
}.
End Batch.

(** What [await] observes of a promise. *)
Inductive Awaited (A : Type) :=
| Fulfilled (a : A)
| Rejected (e : JsThrown)
| Pending.

Arguments Fulfilled {A} a.
Arguments Rejected {A} e.
Arguments Pending {A}.

(** [values[index] = value] on the result array of [Promise.all]. *)
Fixpoint setSlot {A} (index : nat) (value : A) (slots : list (option A))
  : list (option A) :=
  match slots, index with
  | [], _ => []
  | _ :: rest, 0 => Some value :: rest
  | slot :: rest, S i => slot :: setSlot i value rest
  end.

(** The promises settle in the order [order] gives to their indices: a
    fulfilled one stores its value in its own slot, a rejected one rejects
    the whole. *)
Fixpoint settleAll {A} (outcomes : list (Completion A)) (order : list nat)
  (slots : list (option A)) : Completion (list (option A)) :=
  match order with
  | [] => Normal slots
  | i :: later =>
      match nth_error outcomes i with
      | Some (Normal value) => settleAll outcomes later (setSlot i value slots)
      | Some (Throw e) => Throw e
      | None => settleAll outcomes later slots
      end
  end.

(** The values of the slots once none is left empty. *)
Fixpoint allFilled {A} (slots : list (option A)) : option (list A) :=
  match slots with
  | [] => Some []
  | Some v :: rest => option_map (cons v) (allFilled rest)
  | None :: _ => None
  end.

(** [await Promise.all(promises)] *)
Definition promiseAll {A} (outcomes : list (Completion A)) (order : list nat)
  : Awaited (list A) :=
  match settleAll outcomes order (repeat None (length outcomes)) with
  | Throw e => Rejected e
  | Normal slots =>
      match allFilled slots with
      | Some values => Fulfilled values
      | None => Pending
      end
  end.

(** [input.words.map(word => generateSentenceForWord(word, input.difficulty))]:
    the call for the word at index [i] runs in the world [worlds i] and
    settles with its completion. *)
Fixpoint startAll (host : Host) (difficulty : jsString) (worlds : nat -> World)
  (index : nat) (words : list jsString) : list (Completion SentenceResult) :=
  match words with
  | [] => []
  | word :: rest =>
      fst (generateSentenceForWord host word (Some difficulty) (worlds index))
      :: startAll host difficulty worlds (S index) rest
  end.

(** The handler of the [generateBatch] mutation, on a validated input. *)
Definition generateBatch (host : Host) (words : list jsString)
  (difficulty : jsString) (worlds : nat -> World) (order : list nat)
  : Awaited Batch.Result :=
  match promiseAll (startAll host difficulty worlds 0 words) order with
  | Fulfilled results =>
      Fulfilled {| Batch.success := true; Batch.results := results |}
  | Rejected e => Rejected e
  | Pending => Pending
  end.

(* ================================================================== *)
(** ** Definitions the statements use *)

(** [p] occurs in [s]. *)
Definition Contains (p s : jsString) : Prop :=
  exists a b, s = a ++ p ++ b.


Definition lowerInvariant (k : RegExp.continuation) : Prop :=
  forall prev s, k (option_map toLowerCaseUnit prev) (toLowerCase s) = k prev s.

(** The world after one draw. *)
Definition advance (w : World) : World :=
  {| draws := draws w; drawn := S (drawn w);
     network := network w; fetched := fetched w |}.

(** The world after a request. *)
Definition sent (r : Request) (w : World) : World :=
  {| draws := draws w; drawn := drawn w;
     network := network w; fetched := fetched w ++ [r] |}.

(** The prompt [createPrompt] builds from the next three draws. *)
Definition promptIn (host : Host) (aWord aDifficulty : jsString) (w : World)
  : jsString :=
  let style := nth (draws w (drawn w) mod length styles) styles [] in
  let context := nth (draws w (S (drawn w)) mod length contexts) contexts [] in
  let options := variations style context in
  promptText aWord (instructionFor host aDifficulty)
    (nth (draws w (S (S (drawn w))) mod length options) options []).

(** The request [callDeepSeekAPI] sends in a world. *)
Definition requestIn (host : Host) (prompt : jsString) (w : World) : Request :=
  {| url := DEEPSEEK_API_URL;
     authorization := str "Bearer " ++ DEEPSEEK_API_KEY host;
     model := DEEPSEEK_MODEL;
     systemContent :=
       str "You are a helpful assistant that generates English fill-in-the-blank sentences.";
     userContent := prompt;
     max_tokens := 150;
     temperatureHundredths := 50 + draws w (drawn w) mod 41;
     stream := false |}.

(** The [catch] of [callDeepSeekAPI]. *)
Definition rethrown (c : Completion jsString) : Completion jsString :=
  match c with
  | Throw NonError => Throw (ErrorObject msgCallFailed)
  | other => other
  end.

(** The template the fallback generator takes in a world. *)
Definition templateIn (w : World) : jsString :=
  nth (draws w (drawn w) mod length templates) templates [].

Definition defaulted (difficultyArg : option jsString) : jsString :=
  match difficultyArg with Some d => d | None => str "medium" end.

(** An [Error] object that carries a message, or a value that is not an
    [Error]. *)
Definition named (e : JsThrown) : Prop :=
  match e with
  | ErrorObject m => m <> []
  | NonError => True
  end.

(** The errors the environment raises by itself carry a message: those of
    the engine, of a failed [fetch] and of a body that cannot be read. *)
Definition environmentNamesItsErrors (host : Host) (w : World) : Prop :=
  (forall f, engineMessage host f <> []) /\
  (forall r,
     match network w r with
     | FetchRejects e => named e
     | FetchResponse _ (BodyRejects e) => named e
     | FetchResponse _ (BodyParsed _) => True
     end).

(** Where a throw of the response handling comes from. *)
Inductive ThrowOrigin (host : Host) (o : FetchOutcome) (e : JsThrown) : Prop :=
| FromFetch : o = FetchRejects e -> ThrowOrigin host o e
| FromBody status : o = FetchResponse status (BodyRejects e) -> ThrowOrigin host o e
| FromClient m : e = ErrorObject m -> m <> [] -> ThrowOrigin host o e
| FromEngine f : e = engineError host f -> ThrowOrigin host o e.

Definition demoHost : Host := {|
  DEEPSEEK_API_KEY := str "sk-demo";
  hostRegExp := fun _ => None;
  engineMessage := fun _ => str "TypeError";
  JSON_stringify := fun _ => str "{}";
  renderBuiltin := fun name => str "function " ++ name ++ str "() { [native code] }"
|}.

(** The same host without a credential. *)
Definition unconfiguredHost : Host := {|
  DEEPSEEK_API_KEY := [];
  hostRegExp := hostRegExp demoHost;
  engineMessage := engineMessage demoHost;
  JSON_stringify := JSON_stringify demoHost;
  renderBuiltin := renderBuiltin demoHost
|}.

(** A world whose network gives the same answer to every request. *)
Definition worldAnswering (o : FetchOutcome) : World := {|
  draws := fun n => n;
  drawn := 0;
  network := fun _ => o;
  fetched := []
|}.

(** The body of a completion with one choice. *)
Definition completionBody (content : jsString) : Json :=
  JObject [(str "choices",
            JArray [JObject [(str "message",
                              JObject [(str "content", JString content)])]])].

Definition worldCompleting (content : jsString) : World :=
  worldAnswering (FetchResponse 200 (BodyParsed (completionBody content))).





(** The code units with a meaning in a pattern. *)
Definition isSyntaxUnit (c : ascii) : bool :=
  existsb (eqUnit c) (str "\^$.*+?()[]{}|").

(** A word none of whose code units has a meaning in a pattern. *)
Definition plainWord (w : jsString) : bool :=
  forallb (fun c => negb (isSyntaxUnit c)) w.

(** The word is read at the start of [s] whatever the case, and a word
    boundary follows it; [prev] is the code unit before [s]. *)
Fixpoint wordEndsHere (w : jsString) (prev : option ascii) (s : jsString)
  : bool :=
  match w with
  | [] => RegExp.atWordBoundary prev s
  | x :: w' =>
      match s with
      | y :: s' =>
          eqUnit (canonicalize x) (canonicalize y) && wordEndsHere w' (Some y) s'
      | [] => false
      end
  end.

(** A whole-word occurrence of [w], whatever the case, at the start of
    [s]. *)
Definition wholeWordHere (w : jsString) (prev : option ascii) (s : jsString)
  : bool :=
  RegExp.atWordBoundary prev s && wordEndsHere w prev s.

(** The index of the first whole-word occurrence of [w] in [s]. *)
Fixpoint firstWholeWord (w : jsString) (prev : option ascii) (s : jsString)
  (index : nat) : option nat :=
  if wholeWordHere w prev s then Some index
  else match s with
       | c :: s' => firstWholeWord w (Some c) s' (S index)
       | [] => None
       end.

Definition literal (c : ascii) : RegExp.term :=
  RegExp.Atom (RegExp.Lit c) RegExp.Once true.

(** The terms of the pattern of a plain word. *)
Definition wordTerms (w : jsString) : list RegExp.term :=
  RegExp.WordBoundary true :: map literal w ++ [RegExp.WordBoundary true].


(* ================================================================== *)
(** ** Further parts of the program and what their statements use *)

(** [s.split(sep)] for a separator of one code unit. *)
Fixpoint splitOn (sep : ascii) (s : jsString) : list jsString :=
  match s with
  | [] => [[]]
  | c :: s' =>
      if eqUnit c sep then [] :: splitOn sep s'
      else match splitOn sep s' with
           | w :: ws => (c :: w) :: ws
           | [] => [[c]]
           end
  end.

(** [pieces.join(sep)] for a separator of one code unit. *)
Fixpoint joinOn (sep : ascii) (pieces : list jsString) : jsString :=
  match pieces with
  | [] => []
  | [p] => p
  | p :: rest => p ++ sep :: joinOn sep rest
  end.

(** No code unit of [s] is [sep]. *)
Definition freeOf (sep : ascii) (s : jsString) : bool :=
  forallb (fun c => negb (eqUnit c sep)) s.

(** Every white space of [s] is one space that follows no white space;
    [afterSpace] tells that the code unit before [s] was white space. *)
Fixpoint spacedFrom (afterSpace : bool) (s : jsString) : bool :=
  match s with
  | [] => true
  | c :: s' =>
      if isWhiteSpace c
      then eqUnit c SPACE && negb afterSpace && spacedFrom true s'
      else spacedFrom false s'
  end.

Definition endsInWhiteSpace (s : jsString) : bool :=
  match rev s with
  | c :: _ => isWhiteSpace c
  | [] => false
  end.

(** A text on one line whose words are separated by single spaces, with
    no white space at either end. *)
Definition singleSpaced (s : jsString) : bool :=
  spacedFrom true s && negb (endsInWhiteSpace s).

(** A code unit that opens a quantifier: [*], [+] or [?]. *)
Definition isQuantifierUnit (c : ascii) : bool :=
  (code c =? 42) || (code c =? 43) || (code c =? 63).

(** The three code units the escaping pattern asks for after a
    metacharacter: two backslashes and a closing bracket. *)
Definition escapeTail : jsString := [BACKSLASH; BACKSLASH; "]"%char].

(** A world whose network answers every request with [o]. *)
Definition alwaysAnswers (w : World) (o : FetchOutcome) : Prop :=
  forall r, network w r = o.

(** [error instanceof Error ? error.message : 'Unknown error'] *)
Definition messageOf (e : JsThrown) : jsString :=
  match e with
  | ErrorObject message => message
  | NonError => msgUnknown
  end.

(** The result of the [catch] block of [generateSentenceForWord]. *)
Definition failureResult (aWord aDifficulty fallbackSentence message : jsString)
  : SentenceResult :=
  {| success := false;
     word := aWord;
     sentence := fallbackSentence;
     difficulty := aDifficulty;
     fallback := true;
     error := Some message |}.

(** The result of the [try] block of [generateSentenceForWord]. *)
Definition successResult (aWord aDifficulty aSentence : jsString)
  : SentenceResult :=
  {| success := true;
     word := aWord;
     sentence := aSentence;
     difficulty := aDifficulty;
     fallback := false;
     error := None |}.

(** *** server/_core/cookies.ts *)

Module Cookies.

(** [req.headers[name]]: absent, one text, or a list of texts. *)
Inductive HeaderValue :=
| Absent
| Text (value : jsString)
| Texts (values : list jsString).

(** What the module reads of a request: [req.protocol], [undefined] as
    [None], and [req.headers["x-forwarded-proto"]]. *)
Record Request := {
  protocol : option jsString;
  forwardedProto : HeaderValue
}.

Record CookieOptions := {
  httpOnly : bool;
  path : jsString;
  sameSite : jsString;
  secure : bool;
  maxAge : option Z
}.

Definition isDigit (c : ascii) : bool := between 48 57 c.

(** One [\d], then [k]. *)
Definition digitThen (k : jsString -> bool) (s : jsString) : bool :=
  match s with
  | c :: s' => isDigit c && k s'
  | [] => false
  end.

(** [\d{1,3}], then [k]: the longer runs are tried first. *)
Definition digits13 (k : jsString -> bool) (s : jsString) : bool :=
  digitThen (fun s1 => digitThen (fun s2 => digitThen k s2 || k s2) s1 || k s1) s.

(** [\.], then [k]. *)
Definition dotThen (k : jsString -> bool) (s : jsString) : bool :=
  match s with
  | c :: s' => (code c =? 46) && k s'
  | [] => false
  end.

(** [$] *)
Definition atEnd (s : jsString) : bool :=
  match s with [] => true | _ :: _ => false end.

(** [/^\d{1,3}(\.\d{1,3}){3}$/.test(host)] *)
Definition dottedQuadTest (host : jsString) : bool :=
  digits13 (dotThen (digits13 (dotThen (digits13 (dotThen (digits13 atEnd)))))) host.

Definition isIpAddress (host : jsString) : bool :=
  if dottedQuadTest host then true else includes (str ":") host.

Definition HTTPS : jsString := str "https".

(** [proto.trim().toLowerCase() === "https"] *)
Definition isHttps (proto : jsString) : bool :=
  eqString (toLowerCase (trim proto)) HTTPS.

Definition isSecureRequest (req : Request) : bool :=
  if match protocol req with
     | Some p => eqString p HTTPS
     | None => false
     end
  then true
  else
    match forwardedProto req with
    | Absent => false
    | Text [] => false
    | Text value => existsb isHttps (splitOn ","%char value)
    | Texts values => existsb isHttps values
    end.

Definition getSessionCookieOptions (req : Request) : CookieOptions :=
  {| httpOnly := true;
     path := str "/";
     sameSite := str "none";
     secure := isSecureRequest req;
     maxAge := None |}.

(** A call [res.clearCookie(name, options)]. *)
Record ClearCookie := {
  cookieName : jsString;
  cookieOptions : CookieOptions
}.

(** The result of the [logout] mutation. *)
Record LogoutResult := { success : bool }.

(** The [auth.logout] mutation: the calls it makes on the response, and
    its result. [COOKIE_NAME] is imported from the shared constants. *)
Definition logout (COOKIE_NAME : jsString) (req : Request)
  : list ClearCookie * LogoutResult :=
  let cookieOptions := getSessionCookieOptions req in
  ([{| cookieName := COOKIE_NAME;
       cookieOptions :=
         {| httpOnly := httpOnly cookieOptions;
            path := path cookieOptions;
            sameSite := sameSite cookieOptions;
            secure := secure cookieOptions;
            maxAge := Some (-1)%Z |} |}],
   {| success := true |}).

(** A text of one to three digits. *)
Definition octetLike (g : jsString) : bool :=
  (1 <=? length g) && (length g <=? 3) && forallb isDigit g.

End Cookies.

(** *** The procedures of the router and their input schemas *)

Module Procedures.

(** How a call of a procedure ends: the input is refused by the schema,
    the handler answers, or the handler throws. *)
Inductive Called (A : Type) :=
| BadRequest
| Answered (a : A)
| InternalError (e : JsThrown).

Arguments BadRequest {A}.
Arguments Answered {A} a.
Arguments InternalError {A} e.

(** [z.enum(['easy', 'medium', 'hard'])] *)
Definition levels : list jsString := [str "easy"; str "medium"; str "hard"].

(** [z.string().min(1)]; [None] when the value is refused. *)
Definition parseWord (v : option Json) : option jsString :=
  match v with
  | Some (JString s) => if 1 <=? length s then Some s else None
  | _ => None
  end.

(** [z.enum(['easy', 'medium', 'hard']).default('medium')] *)
Definition parseDifficulty (v : option Json) : option jsString :=
  match v with
  | None => Some (str "medium")
  | Some (JString s) => if existsb (eqString s) levels then Some s else None
  | _ => None
  end.

(** [z.array(z.string().min(1))] *)
Fixpoint parseEach (items : list Json) : option (list jsString) :=
  match items with
  | [] => Some []
  | item :: rest =>
      match parseWord (Some item), parseEach rest with
      | Some w, Some ws => Some (w :: ws)
      | _, _ => None
      end
  end.

Definition parseWords (v : option Json) : option (list jsString) :=
  match v with
  | Some (JArray items) => parseEach items
  | _ => None
  end.

(** The input of [generateSentence] after its schema. *)
Definition parseSentenceInput (input : option Json)
  : option (jsString * jsString) :=
  match input with
  | Some (JObject fields) =>
      match parseWord (lookupField (str "word") fields),
            parseDifficulty (lookupField (str "difficulty") fields) with
      | Some w, Some d => Some (w, d)
      | _, _ => None
      end
  | _ => None
  end.

(** The input of [generateBatch] after its schema. *)
Definition parseBatchInput (input : option Json)
  : option (list jsString * jsString) :=
  match input with
  | Some (JObject fields) =>
      match parseWords (lookupField (str "words") fields),
            parseDifficulty (lookupField (str "difficulty") fields) with
      | Some ws, Some d => Some (ws, d)
      | _, _ => None
      end
  | _ => None
  end.

(** The [wordFill.generateSentence] mutation. *)
Definition generateSentence (host : Host) (input : option Json) (w : World)
  : Called SentenceResult * World :=
  match parseSentenceInput input with
  | None => (BadRequest, w)
  | Some (aWord, aDifficulty) =>
      match generateSentenceForWord host aWord (Some aDifficulty) w with
      | (Normal r, w') => (Answered r, w')
      | (Throw e, w') => (InternalError e, w')
      end
  end.

(** The [wordFill.generateBatch] mutation; [None] while the handler has
    not settled. *)
Definition generateBatch (host : Host) (input : option Json)
  (worlds : nat -> World) (order : list nat)
  : option (Called Batch.Result) :=
  match parseBatchInput input with
  | None => Some BadRequest
  | Some (words, aDifficulty) =>
      match generateBatch host words aDifficulty worlds order with
      | Fulfilled result => Some (Answered result)
      | Rejected e => Some (InternalError e)
      | Pending => None
      end
  end.

End Procedures.

(** *** The page: the word list and the check of the answers *)

Module Home.

Inductive Toast :=
| ToastError (message : jsString)
| ToastWarning (message : jsString)
| ToastSuccess (message : jsString)
(** The success toast of [checkAnswers], by its two counts; the percentage
    it also shows is a rounded quotient of floating point numbers. *)
| ToastScore (correctCount total : nat).

Record Sentence := {
  id : nat;
  word : jsString;
  sentence : jsString;
  answered : bool;
  aiGenerated : bool;
  fallback : bool
}.

Record CheckResult := {
  checkedWord : jsString;
  correct : bool;
  userAnswer : jsString
}.

(** The state of the component that the handlers below read and set;
    [userAnswers] is the object of answers by index, the latest entry of
    an index first. *)
Record State := {
  words : list jsString;
  wordInput : jsString;
  sentences : list Sentence;
  userAnswers : list (nat * jsString);
  checkResults : list CheckResult;
  showResults : bool;
  toasts : list Toast
}.

Definition initial : State :=
  {| words := []; wordInput := []; sentences := []; userAnswers := [];
     checkResults := []; showResults := false; toasts := [] |}.

Definition toast (t : Toast) (st : State) : State :=
  {| words := words st; wordInput := wordInput st; sentences := sentences st;
     userAnswers := userAnswers st; checkResults := checkResults st;
     showResults := showResults st; toasts := toasts st ++ [t] |}.

Definition addWord (st : State) : State :=
  let aWord := toLowerCase (trim (wordInput st)) in
  match aWord with
  | [] => toast (ToastError (str "請輸入有效的單字")) st
  | _ :: _ =>
      if existsb (eqString aWord) (words st)
      then toast (ToastWarning (str "單字已存在")) st
      else {| words := words st ++ [aWord]; wordInput := [];
              sentences := sentences st; userAnswers := userAnswers st;
              checkResults := checkResults st; showResults := showResults st;
              toasts := toasts st |}
  end.

(** [words.filter((_, i) => i !== index)] *)
Fixpoint removeAt (index : nat) (ws : list jsString) : list jsString :=
  match ws, index with
  | [], _ => []
  | _ :: rest, 0 => rest
  | x :: rest, S i => x :: removeAt i rest
  end.

Definition removeWord (index : nat) (st : State) : State :=
  let removed :=
    match nth_error (words st) index with
    | Some x => x
    | None => str "undefined"
    end in
  toast (ToastSuccess (str "已移除: " ++ removed))
    {| words := removeAt index (words st); wordInput := wordInput st;
       sentences := sentences st; userAnswers := userAnswers st;
       checkResults := checkResults st; showResults := showResults st;
       toasts := toasts st |}.

Definition clearWords (st : State) : State :=
  toast (ToastSuccess (str "已清空"))
    {| words := []; wordInput := wordInput st; sentences := [];
       userAnswers := []; checkResults := []; showResults := false;
       toasts := toasts st |}.

(** [setUserAnswers({ ...userAnswers, [index]: value })] *)
Definition typeAnswer (index : nat) (value : jsString) (st : State) : State :=
  {| words := words st; wordInput := wordInput st; sentences := sentences st;
     userAnswers := (index, value) :: userAnswers st;
     checkResults := checkResults st; showResults := showResults st;
     toasts := toasts st |}.

Fixpoint lookupAnswer (index : nat) (answers : list (nat * jsString))
  : option jsString :=
  match answers with
  | [] => None
  | (i, a) :: rest => if i =? index then Some a else lookupAnswer index rest
  end.

(** [userAnswers[id - 1] || ''] *)
Definition answerFor (anId : nat) (answers : list (nat * jsString)) : jsString :=
  match anId with
  | 0 => []
  | S index =>
      match lookupAnswer index answers with
      | Some a => a
      | None => []
      end
  end.

Definition check (answers : list (nat * jsString)) (s : Sentence) : CheckResult :=
  let given := toLowerCase (trim (answerFor (id s) answers)) in
  {| checkedWord := word s;
     correct := eqString given (toLowerCase (word s));
     userAnswer := given |}.

Definition checkAnswers (st : State) : State :=
  match sentences st with
  | [] => toast (ToastError (str "請先生成練習題")) st
  | _ :: _ =>
      let results := map (check (userAnswers st)) (sentences st) in
      let correctCount := length (filter correct results) in
      toast (ToastScore correctCount (length results))
        {| words := words st; wordInput := wordInput st;
           sentences := sentences st; userAnswers := userAnswers st;
           checkResults := results; showResults := true;
           toasts := toasts st |}
  end.

(** [items.map((item, index) => ({ ...item, id: index + 1 }))], from the
    index [from]. *)
Fixpoint renumberFrom (from : nat) (items : list Sentence) : list Sentence :=
  match items with
  | [] => []
  | item :: rest =>
      {| id := from + 1; word := word item; sentence := sentence item;
         answered := answered item; aiGenerated := aiGenerated item;
         fallback := fallback item |} :: renumberFrom (S from) rest
  end.

(** [reorderedSentences] of [generateSentences], for the order [shuffled]
    that the sort with a random comparison left. *)
Definition reorderedSentences (shuffled : list Sentence) : list Sentence :=
  renumberFrom 0 shuffled.

(** A list of words as [addWord] builds it: no word twice, none empty,
    each trimmed and in lower case. *)
Definition Tidy (ws : list jsString) : Prop :=
  NoDup ws /\
  Forall (fun aWord => aWord <> [] /\ trim aWord = aWord /\
                       toLowerCase aWord = aWord) ws.

(** The input [generateSentences] passes to the [generateBatch]
    procedure. *)
Definition batchInput (ws : list jsString) (aDifficulty : jsString)
  : option Json :=
  Some (JObject [(str "words", JArray (map JString ws));
                 (str "difficulty", JString aDifficulty)]).

(** The state with [value] typed in the word input. *)
Definition typeWord (value : jsString) (st : State) : State :=
  {| words := words st; wordInput := value; sentences := sentences st;
     userAnswers := userAnswers st; checkResults := checkResults st;
     showResults := showResults st; toasts := toasts st |}.

End Home.

(* ================================================================== *)
(** ** Checks of the embedding on the examples of the specification *)

Example parse_word :
  RegExp.parse (str "\bcat\b") =
  RegExp.Terms [RegExp.WordBoundary true;
                RegExp.Atom (RegExp.Lit "c") RegExp.Once true;
                RegExp.Atom (RegExp.Lit "a") RegExp.Once true;
                RegExp.Atom (RegExp.Lit "t") RegExp.Once true;
                RegExp.WordBoundary true].
Proof. reflexivity. Qed.

Example parse_cpp : RegExp.parse (str "\bc++\b") = RegExp.SyntaxError.
Proof. reflexivity. Qed.

Example exec_cat :
  RegExp.exec (RegExp.Fragment [RegExp.WordBoundary true;
                RegExp.Atom (RegExp.Lit "c") RegExp.Once true;
                RegExp.Atom (RegExp.Lit "a") RegExp.OneOrMore true;
                RegExp.Atom (RegExp.Lit "t") RegExp.Once true;
                RegExp.WordBoundary true]) (str "concat a CAAT!") = Some (9, 4).
Proof. reflexivity. Qed.

Example escape_plain : escapeWord (str "a.c") = str "a.c".
Proof. reflexivity. Qed.

Example ex_happy : extractSentence demoHost (str "I feel happy today") (str "happy")
  = Normal (str "I feel ___ today.").
Proof. reflexivity. Qed.

Example ex_yes : extractSentence demoHost (str "Yes") (str "zzz")
  = Normal (str "Ye ___.").
Proof. reflexivity. Qed.

Example ex_mid : extractSentence demoHost (str "one two three four five") (str "zzz")
  = Normal (str "one two ___ three four five.").
Proof. reflexivity. Qed.

Example ex_dot : extractSentence demoHost (str "An abc is here now.") (str "a.c")
  = Normal (str "An ___ is here now.").
Proof. reflexivity. Qed.

(* ================================================================== *)
(** ** Facts about code units *)

Ltac by_code_unit c :=
  destruct c as [[] [] [] [] [] [] [] []]; vm_compute; try reflexivity;
  try discriminate; auto.

Lemma eqUnit_refl (c : ascii) : eqUnit c c = true.
Proof. apply Ascii.eqb_refl. Qed.

Lemma eqUnit_true (a b : ascii) : eqUnit a b = true -> a = b.
Proof. apply Ascii.eqb_eq. Qed.


Lemma lower_keeps_wordChar (c : ascii) :
  isWordChar (toLowerCaseUnit c) = isWordChar c.
Proof. by_code_unit c. Qed.

Lemma lower_keeps_lineTerminator (c : ascii) :
  isLineTerminator (toLowerCaseUnit c) = isLineTerminator c.
Proof. by_code_unit c. Qed.

Lemma lower_keeps_canonical (c : ascii) :
  canonicalize (toLowerCaseUnit c) = canonicalize c.
Proof. by_code_unit c. Qed.

(* ================================================================== *)
(** ** Facts about strings *)

Lemma includes_unfold (p s : jsString) :
  includes p s =
  (startsWith p s || match s with [] => false | _ :: s' => includes p s' end).
Proof. destruct s; reflexivity. Qed.

Lemma startsWith_app (p b : jsString) : startsWith p (p ++ b) = true.
Proof.
  induction p as [|c p IH]; simpl; [reflexivity|].
  now rewrite eqUnit_refl, IH.
Qed.

Lemma startsWith_split (p s : jsString) :
  startsWith p s = true -> exists b, s = p ++ b.
Proof.
  revert s; induction p as [|c p IH]; intros s H.
  - now exists s.
  - destruct s as [|d s]; simpl in H; [discriminate|].
    apply andb_true_iff in H as [Hc Hp].
    apply eqUnit_true in Hc; subst d.
    destruct (IH _ Hp) as [b ->]. now exists b.
Qed.

Lemma includes_Contains (p s : jsString) :
  includes p s = true <-> Contains p s.
Proof.
  split.
  - induction s as [|c s IH]; rewrite includes_unfold; intros H.
    + rewrite orb_false_r in H. apply startsWith_split in H as [b ->].
      now exists [], b.
    + apply orb_true_iff in H as [H|H].
      * apply startsWith_split in H as [b ->]. now exists [], b.
      * destruct (IH H) as (a & b & ->). now exists (c :: a), b.
  - intros (a & b & ->). induction a as [|c a IH].
    + simpl app. rewrite includes_unfold. now rewrite startsWith_app.
    + simpl app. rewrite includes_unfold, IH. apply orb_true_r.
Qed.


Lemma Contains_app_l (p s t : jsString) : Contains p s -> Contains p (t ++ s).
Proof.
  intros (a & b & ->). exists (t ++ a), b. now rewrite <- !app_assoc.
Qed.

Lemma trimStart_app (a x : jsString) (c : ascii) :
  isWhiteSpace c = false -> trimStart (a ++ c :: x) = trimStart a ++ c :: x.
Proof.
  intros Hc. induction a as [|d a IH]; simpl.
  - now rewrite Hc.
  - destruct (isWhiteSpace d); [exact IH | reflexivity].
Qed.

Lemma trimEnd_app (a x : jsString) (c : ascii) :
  isWhiteSpace c = false -> trimEnd (a ++ c :: x) = a ++ c :: trimEnd x.
Proof.
  intros Hc. unfold trimEnd.
  rewrite rev_app_distr. simpl rev. rewrite <- app_assoc. simpl app.
  rewrite (trimStart_app _ _ _ Hc), rev_app_distr. simpl rev.
  now rewrite rev_involutive, <- app_assoc.
Qed.


Lemma blank_units :
  BLANK = [UNDERSCORE; UNDERSCORE; UNDERSCORE] /\ isWhiteSpace UNDERSCORE = false.
Proof. split; reflexivity. Qed.









(* ================================================================== *)
(** ** The pattern does not see the case of the input *)

Lemma atomMatches_lower (a : RegExp.atom) (c : ascii) :
  RegExp.atomMatches a (toLowerCaseUnit c) = RegExp.atomMatches a c.
Proof.
  destruct a; simpl.
  - now rewrite lower_keeps_canonical.
  - now rewrite lower_keeps_lineTerminator.
Qed.

Lemma atWordBoundary_lower (prev : option ascii) (s : jsString) :
  RegExp.atWordBoundary (option_map toLowerCaseUnit prev) (toLowerCase s) =
  RegExp.atWordBoundary prev s.
Proof.
  unfold RegExp.atWordBoundary.
  destruct prev as [p|], s as [|c s]; simpl;
    now rewrite ?lower_keeps_wordChar.
Qed.

Lemma step_lower (a : RegExp.atom) (k : RegExp.continuation) (s : jsString) :
  lowerInvariant k ->
  RegExp.step a k (toLowerCase s) = RegExp.step a k s.
Proof.
  intros Hk. destruct s as [|c s]; simpl; [reflexivity|].
  rewrite atomMatches_lower.
  destruct (RegExp.atomMatches a c); [|reflexivity].
  now rewrite <- (Hk (Some c) s).
Qed.

Lemma star_lower (a : RegExp.atom) (greedy : bool) (k : RegExp.continuation) :
  lowerInvariant k -> lowerInvariant (RegExp.star a greedy k).
Proof.
  intros Hk prev s. revert prev.
  induction s as [|c s IH]; intros prev; simpl.
  - now rewrite <- (Hk prev []).
  - rewrite atomMatches_lower, <- (Hk prev (c :: s)).
    specialize (IH (Some c)). simpl in IH. now rewrite IH.
Qed.

Lemma matchTerms_lower (ts : list RegExp.term) :
  lowerInvariant (RegExp.matchTerms ts).
Proof.
  induction ts as [|t ts IH]; intros prev s; simpl; [reflexivity|].
  destruct t as [positive | a q greedy].
  - now rewrite atWordBoundary_lower, (IH prev s).
  - destruct q.
    + now apply step_lower.
    + now apply star_lower.
    + apply step_lower. now apply star_lower.
    + now rewrite (step_lower a _ s IH), (IH prev s).
Qed.

Lemma searchFrom_lower (ts : list RegExp.term) (prev : option ascii)
  (s : jsString) (index : nat) :
  RegExp.searchFrom ts (option_map toLowerCaseUnit prev) (toLowerCase s) index =
  RegExp.searchFrom ts prev s index.
Proof.
  revert prev index. induction s as [|c s IH]; intros prev index; simpl.
  - now rewrite <- (matchTerms_lower ts prev []).
  - rewrite <- (matchTerms_lower ts prev (c :: s)). simpl.
    now rewrite (IH (Some c)).
Qed.



(* ================================================================== *)
(** ** extractSentence *)




(* ================================================================== *)
(** ** Running the effects *)

Lemma pick_run {A} (items : list A) (d : A) (w : World) :
  pick items d w =
  (Normal (nth (draws w (drawn w) mod length items) items d), advance w).
Proof. reflexivity. Qed.

Lemma generateFallbackSentence_run (aWord : jsString) (w : World) :
  generateFallbackSentence aWord w = (Normal (templateIn w), advance w).
Proof. reflexivity. Qed.

Lemma templateIn_templates (w : World) : In (templateIn w) templates.
Proof.
  unfold templateIn. apply nth_In. apply Nat.mod_upper_bound. discriminate.
Qed.

Lemma createPrompt_run (host : Host) (aWord aDifficulty : jsString) (w : World) :
  createPrompt host aWord aDifficulty w =
  (Normal (promptIn host aWord aDifficulty w), advance (advance (advance w))).
Proof. reflexivity. Qed.

Lemma callDeepSeekAPI_unconfigured (host : Host) (prompt : jsString) (w : World) :
  DEEPSEEK_API_KEY host = [] ->
  callDeepSeekAPI host prompt w = (Throw (ErrorObject msgNotConfigured), w).
Proof. unfold callDeepSeekAPI. now intros ->. Qed.

Lemma callDeepSeekAPI_run (host : Host) (prompt : jsString) (w : World) :
  DEEPSEEK_API_KEY host <> [] ->
  callDeepSeekAPI host prompt w =
  (rethrown (readResponse host (network w (requestIn host prompt w))),
   sent (requestIn host prompt w) (advance w)).
Proof.
  unfold callDeepSeekAPI, requestIn.
  destruct (DEEPSEEK_API_KEY host) as [|k key]; [congruence|]. intros _.
  cbv [bind tryCatch randomTemperature nextDraw fetch lift ret throw
       draws drawn network fetched].
  destruct w as [ds n net log]. cbv [draws drawn network fetched].
  match goal with |- context [readResponse host ?o] =>
    destruct (readResponse host o) as [s|[m|]] end; reflexivity.
Qed.

Lemma getProperty_throws (host : Host) (v : option Json) (k : Key) (e : JsThrown) :
  getProperty host v k = Throw e -> exists f, e = engineError host f.
Proof.
  destruct v as [[| | | | |]|], k; simpl; intros H; try discriminate;
    injection H as <-; eauto.
Qed.

Lemma callTrim_throws (host : Host) (v : option Json) (e : JsThrown) :
  callTrim host v = Throw e -> exists f, e = engineError host f.
Proof.
  destruct v as [[| | | | |]|]; simpl; intros H; try discriminate;
    injection H as <-; eauto.
Qed.

Lemma msgHttp_not_empty (host : Host) (status : nat) (errorData : Json) :
  msgHttp host status errorData <> [].
Proof. discriminate. Qed.

Lemma readResponse_throws (host : Host) (o : FetchOutcome) (e : JsThrown) :
  readResponse host o = Throw e -> ThrowOrigin host o e.
Proof.
  unfold readResponse. destruct o as [e0 | status body].
  - intros H; injection H as <-. now apply FromFetch.
  - destruct (negb (responseOk status)).
    + destruct (status =? 401); [|destruct (status =? 403);
        [|destruct (status =? 429); [|destruct (status =? 500)]]];
        intros H; injection H as <-;
        eapply FromClient; try reflexivity; discriminate.
    + destruct body as [e0 | result].
      * intros H; injection H as <-. now eapply FromBody.
      * destruct (getProperty host (Some result) Kchoices) as [choices|e1] eqn:E1;
          [|intros H; injection H as <-;
            destruct (getProperty_throws _ _ _ _ E1) as [f ->]; now eapply FromEngine].
        destruct (isFalsy choices);
          [intros H; injection H as <-; eapply FromClient; [reflexivity|discriminate]|].
        destruct (getProperty host choices Klength) as [len|e2] eqn:E2;
          [|intros H; injection H as <-;
            destruct (getProperty_throws _ _ _ _ E2) as [f ->]; now eapply FromEngine].
        destruct (isZero len);
          [intros H; injection H as <-; eapply FromClient; [reflexivity|discriminate]|].
        destruct (getProperty host choices Kzero) as [first|e3] eqn:E3;
          [|intros H; injection H as <-;
            destruct (getProperty_throws _ _ _ _ E3) as [f ->]; now eapply FromEngine].
        destruct (getProperty host first Kmessage) as [message|e4] eqn:E4;
          [|intros H; injection H as <-;
            destruct (getProperty_throws _ _ _ _ E4) as [f ->]; now eapply FromEngine].
        destruct (getProperty host message Kcontent) as [content|e5] eqn:E5;
          [|intros H; injection H as <-;
            destruct (getProperty_throws _ _ _ _ E5) as [f ->]; now eapply FromEngine].
        intros H. destruct (callTrim_throws _ _ _ H) as [f ->]. now eapply FromEngine.
Qed.

(** What [callDeepSeekAPI] throws is an [Error], and it carries a message
    when the errors of the environment do. *)
Lemma callDeepSeekAPI_throws (host : Host) (prompt : jsString) (w w' : World)
  (e : JsThrown) :
  callDeepSeekAPI host prompt w = (Throw e, w') ->
  exists m, e = ErrorObject m /\ (environmentNamesItsErrors host w -> m <> []).
Proof.
  destruct (DEEPSEEK_API_KEY host) as [|k key] eqn:K.
  - rewrite (callDeepSeekAPI_unconfigured host prompt w K).
    intros H; injection H as <- _. eexists; split; [reflexivity|]. discriminate.
  - rewrite callDeepSeekAPI_run by (rewrite K; discriminate).
    set (o := network w (requestIn host prompt w)).
    pose proof (readResponse_throws host o) as Origin.
    destruct (readResponse host o) as [s|e0]; simpl; [discriminate|].
    specialize (Origin e0 eq_refl).
    assert (Env : environmentNamesItsErrors host w -> named e0).
    { intros [Hengine Hnet]. specialize (Hnet (requestIn host prompt w)).
      fold o in Hnet.
      destruct Origin as [Ho | status Ho | m -> Hm | f ->].
      - now rewrite Ho in Hnet.
      - now rewrite Ho in Hnet.
      - exact Hm.
      - apply Hengine. }
    destruct e0 as [m|]; simpl; intros H; injection H as <- _.
    + eexists; split; [reflexivity|exact Env].
    + eexists; split; [reflexivity|]. discriminate.
Qed.

(** The shape of every result of [generateSentenceForWord]: it returns,
    echoes its arguments, and is either a fallback with an error or a
    generated sentence the normalizer returned. *)
Lemma generateSentenceForWord_shape (host : Host) (aWord : jsString)
  (difficultyArg : option jsString) (w : World) :
  exists r w',
    generateSentenceForWord host aWord difficultyArg w = (Normal r, w') /\
    word r = aWord /\ difficulty r = defaulted difficultyArg /\
    ((success r = false /\ fallback r = true /\ In (sentence r) templates /\
      exists m, error r = Some m /\ (environmentNamesItsErrors host w -> m <> []))
     \/
     (success r = true /\ fallback r = false /\ error r = None /\
      exists response, extractSentence host response aWord = Normal (sentence r))).
Proof.
  unfold generateSentenceForWord. fold (defaulted difficultyArg).
  destruct aWord as [|c rest].
  - cbn [orb]. unfold bind. rewrite generateFallbackSentence_run. unfold ret.
    do 2 eexists. split; [reflexivity|]. cbn. repeat split. left.
    repeat split; [apply templateIn_templates|].
    eexists; split; [reflexivity|]. discriminate.
  - cbn [orb length Nat.ltb Nat.leb]. set (aWord := c :: rest).
    unfold tryCatch, bind. rewrite createPrompt_run.
    set (prompt := promptIn host aWord (defaulted difficultyArg) w).
    set (w3 := advance (advance (advance w))).
    destruct (callDeepSeekAPI host prompt w3) as [[response|e] w4] eqn:Call.
    + unfold lift.
      destruct (extractSentence host response aWord) as [s|e] eqn:Ex.
      * unfold ret. do 2 eexists. split; [reflexivity|]. cbn. repeat split.
        right. repeat split. now exists response.
      * rewrite generateFallbackSentence_run. unfold ret.
        do 2 eexists. split; [reflexivity|]. cbn. repeat split. left.
        repeat split; [apply templateIn_templates|].
        eexists; split; [reflexivity|]. intros [Hengine _].
        unfold extractSentence in Ex.
        destruct (negb (includes BLANK (stripQuotes (trim response))));
          [|discriminate].
        unfold placeBlank, newRegExp in Ex.
        destruct (RegExp.parse (patternSource aWord)).
        -- destruct (RegExp.test _ _); [discriminate|].
           destruct (3 <? _); discriminate.
        -- injection Ex as <-. apply Hengine.
        -- destruct (hostRegExp host (patternSource aWord)).
           ++ destruct (RegExp.test _ _); [discriminate|].
              destruct (3 <? _); discriminate.
           ++ injection Ex as <-. apply Hengine.
    + rewrite generateFallbackSentence_run. unfold ret.
      destruct (callDeepSeekAPI_throws host prompt w3 w4 e Call) as (m & -> & Hm).
      do 2 eexists. split; [reflexivity|]. cbn. repeat split. left.
      repeat split; [apply templateIn_templates|].
      eexists; split; [reflexivity|]. intros Henv. apply Hm.
      destruct Henv as [He Hn]. split; [exact He|exact Hn].
Qed.

(* ================================================================== *)
(** ** The orchestrator *)

(** C3. For the empty word [generateSentenceForWord] returns at once a
    result with [success:false], [fallback:true], an error that is not
    empty and a sentence of the fallback generator, and the log of network
    requests is as it was: no request is made. *)
Theorem empty_word_short_circuit (host : Host)
  (difficultyArg : option jsString) (w : World) :
  exists r w',
    generateSentenceForWord host [] difficultyArg w = (Normal r, w') /\
    success r = false /\ fallback r = true /\
    (exists m, error r = Some m /\ m <> []) /\
    In (sentence r) templates /\
    fetched w' = fetched w.
Proof.
  unfold generateSentenceForWord. cbn [orb]. unfold bind.
  rewrite generateFallbackSentence_run. unfold ret.
  do 2 eexists. split; [reflexivity|]. cbn.
  repeat split; [|apply templateIn_templates].
  exists msgWordTooShort. split; [reflexivity|discriminate].
Qed.

(** C8. On every branch the result carries the input word in [word] and
    the requested difficulty, or ['medium'] when none is given, in
    [difficulty]. *)
Theorem result_echoes_word_and_difficulty (host : Host) (aWord : jsString)
  (difficultyArg : option jsString) (w : World) :
  exists r w',
    generateSentenceForWord host aWord difficultyArg w = (Normal r, w') /\
    word r = aWord /\
    difficulty r = match difficultyArg with
                   | Some d => d
                   | None => str "medium"
                   end.
Proof.
  destruct (generateSentenceForWord_shape host aWord difficultyArg w)
    as (r & w' & Run & Hword & Hdifficulty & _).
  now exists r, w'.
Qed.










(** Away from the inherited names, an unrecognized difficulty takes the
    medium instruction. *)
Lemma unrecognized_difficulty_is_medium (host : Host) (aDifficulty : jsString) :
  ownProperty aDifficulty difficultyInstructions = None ->
  existsb (eqString aDifficulty) objectPrototypeProperties = false ->
  instructionFor host aDifficulty = mediumInstruction.
Proof.
  unfold instructionFor, readInstruction. now intros -> ->.
Qed.


(** By contrast the fallback generator and the prompt builder depend on
    the draws of the world. *)
Lemma fallback_depends_on_draws :
  fst (generateFallbackSentence (str "cat") (worldAnswering (FetchRejects NonError))) <>
  fst (generateFallbackSentence (str "cat")
         (advance (worldAnswering (FetchRejects NonError)))).
Proof. vm_compute. discriminate. Qed.

(** With each metacharacter given its backslash, the dot of [a.c] is a
    literal and nothing in the sentence matches. *)
Example escaped_dot_is_literal :
  RegExp.parse (str "\ba\.c\b") = RegExp.Terms (wordTerms (str "a.c")) /\
  RegExp.exec (RegExp.Fragment (wordTerms (str "a.c")))
    (str "an abc is here now.") = None.
Proof. split; reflexivity. Qed.

(** C4. The word is not escaped: the escaping pattern of the source asks
    for a metacharacter followed by two backslashes and a bracket, so a
    word such as [a.c] reaches the pattern unchanged.  Its dot then matches
    any code unit and [abc] is blanked although the word does not occur; a
    word such as [c++] is refused as a pattern and the normalizer throws. *)
Theorem extractSentence_word_not_escaped (host : Host) :
  escapeWord (str "a.c") = str "a.c" /\
  extractSentence host (str "An abc is here now.") (str "a.c") =
    Normal (str "An ___ is here now.") /\
  escapeWord (str "c++") = str "c++" /\
  extractSentence host (str "I like c++ a lot") (str "c++") =
    Throw (engineError host (InvalidRegExp (str "\bc++\b"))).
Proof. repeat split. Qed.

(* ================================================================== *)
(** ** The client *)




(* ================================================================== *)
(** ** The batch *)

Lemma setSlot_length {A} (i : nat) (v : A) (slots : list (option A)) :
  length (setSlot i v slots) = length slots.
Proof.
  revert i; induction slots as [|s slots IH]; intros [|i]; simpl; auto.
Qed.

Lemma setSlot_same {A} (i : nat) (v : A) (slots : list (option A)) :
  i < length slots -> nth_error (setSlot i v slots) i = Some (Some v).
Proof.
  revert i; induction slots as [|s slots IH]; intros [|i]; simpl; intros H;
    try lia; auto. apply IH. lia.
Qed.

Lemma setSlot_other {A} (i k : nat) (v : A) (slots : list (option A)) :
  k <> i -> nth_error (setSlot i v slots) k = nth_error slots k.
Proof.
  revert i k; induction slots as [|s slots IH]; intros [|i] [|k] H; simpl;
    auto; try congruence.
Qed.

(** When every promise fulfils, the slot of each settled index holds the
    value of that promise and the other slots are untouched. *)
Lemma settleAll_fulfilled {A} (values : list A) (order : list nat) :
  forall slots, length slots = length values ->
  exists slots',
    settleAll (map Normal values) order slots = Normal slots' /\
    length slots' = length values /\
    forall i, i < length values ->
      (In i order -> nth_error slots' i = option_map Some (nth_error values i)) /\
      (~ In i order -> nth_error slots' i = nth_error slots i).
Proof.
  induction order as [|j later IH]; intros slots Hlen.
  - exists slots. repeat split; auto. intros [].
  - simpl settleAll. rewrite nth_error_map.
    destruct (nth_error values j) as [v|] eqn:Ej; simpl.
    + assert (Hj : j < length values)
        by (apply nth_error_Some; congruence).
      destruct (IH (setSlot j v slots)) as (slots' & Run & Hlen' & Hslots).
      { now rewrite setSlot_length. }
      exists slots'. repeat split; auto.
      * intros Hin. destruct (in_dec Nat.eq_dec i later) as [Hl|Hl].
        -- now apply Hslots.
        -- destruct Hin as [<-|Hin]; [|contradiction].
           destruct (Hslots j Hj) as [_ Keep]. rewrite (Keep Hl), Ej.
           apply setSlot_same. lia.
      * intros Hnot. destruct (Hslots i H) as [_ Keep].
        rewrite Keep by (intros Hl; apply Hnot; now right).
        apply setSlot_other. intros ->. apply Hnot. now left.
    + destruct (IH slots Hlen) as (slots' & Run & Hlen' & Hslots).
      exists slots'. repeat split; auto.
      * intros [<-|Hin]; [|now apply Hslots].
        apply nth_error_None in Ej. lia.
      * intros Hnot. apply Hslots; [exact H|].
        intros Hl. apply Hnot. now right.
Qed.

Lemma allFilled_map_Some {A} (values : list A) :
  allFilled (map Some values) = Some values.
Proof.
  induction values as [|v values IH]; simpl; [reflexivity|]. now rewrite IH.
Qed.

(** Whatever the order in which they settle, promises that all fulfil give
    their values in the order of the promises. *)
Lemma promiseAll_fulfilled {A} (values : list A) (order : list nat) :
  Permutation order (seq 0 (length values)) ->
  promiseAll (map Normal values) order = Fulfilled values.
Proof.
  intros Hperm. unfold promiseAll. rewrite length_map.
  destruct (settleAll_fulfilled values order (repeat None (length values)))
    as (slots' & -> & Hlen & Hslots).
  { apply repeat_length. }
  assert (E : slots' = map Some values).
  { apply nth_error_ext. intros i. rewrite nth_error_map.
    destruct (Nat.lt_ge_cases i (length values)) as [Hi|Hi].
    - apply Hslots; [exact Hi|].
      apply (Permutation_in _ (Permutation_sym Hperm)), in_seq. lia.
    - rewrite (proj2 (nth_error_None values i) Hi). simpl.
      apply nth_error_None. lia. }
  now rewrite E, allFilled_map_Some.
Qed.

(** The result a call returns: [generateSentenceForWord] always returns. *)
Lemma generateSentenceForWord_returns (host : Host) (aWord : jsString)
  (difficultyArg : option jsString) (w : World) :
  exists r w', generateSentenceForWord host aWord difficultyArg w = (Normal r, w').
Proof.
  destruct (generateSentenceForWord_shape host aWord difficultyArg w)
    as (r & w' & Run & _). now exists r, w'.
Qed.

(** The calls of a batch all fulfil, each with the result of its own word
    in its own world. *)
Lemma startAll_fulfilled (host : Host) (aDifficulty : jsString)
  (worlds : nat -> World) (words : list jsString) :
  forall index,
  exists values,
    startAll host aDifficulty worlds index words = map Normal values /\
    length values = length words /\
    forall i aWord, nth_error words i = Some aWord ->
      exists r w',
        generateSentenceForWord host aWord (Some aDifficulty) (worlds (index + i))
          = (Normal r, w') /\
        nth_error values i = Some r.
Proof.
  induction words as [|aWord words IH]; intros index.
  - exists []. repeat split. intros [|i] ? H; discriminate H.
  - destruct (IH (S index)) as (values & Tail & Hlen & Hnth).
    destruct (generateSentenceForWord_returns host aWord (Some aDifficulty)
                (worlds index)) as (r & w' & Run).
    exists (r :: values). simpl. rewrite Run, Tail. repeat split.
    + now rewrite Hlen.
    + intros [|i] other H; simpl in H.
      * injection H as <-. rewrite Nat.add_0_r. now exists r, w'.
      * destruct (Hnth i other H) as (r' & w'' & Run' & Hr').
        rewrite Nat.add_succ_r. now exists r', w''.
Qed.

(** C7. Whatever the order in which the calls complete, [generateBatch]
    fulfils with [success:true] and a list holding one result per word:
    the result at index [i] is the one the call for the word at index [i]
    returns in its own world, so it depends on no other word; the empty
    list of words gives the empty list of results. *)
Theorem generateBatch_index_aligned (host : Host) (words : list jsString)
  (aDifficulty : jsString) (worlds : nat -> World) (order : list nat) :
  Permutation order (seq 0 (length words)) ->
  exists results,
    generateBatch host words aDifficulty worlds order =
      Fulfilled {| Batch.success := true; Batch.results := results |} /\
    length results = length words /\
    (forall i aWord, nth_error words i = Some aWord ->
       exists r w',
         generateSentenceForWord host aWord (Some aDifficulty) (worlds i)
           = (Normal r, w') /\
         nth_error results i = Some r) /\
    (words = [] -> results = []).
Proof.
  intros Hperm.
  destruct (startAll_fulfilled host aDifficulty worlds words 0)
    as (values & Started & Hlen & Hnth).
  exists values. unfold generateBatch. rewrite Started.
  rewrite promiseAll_fulfilled by now rewrite Hlen.
  repeat split; auto.
  intros ->. now destruct values.
Qed.

Lemma generateBatch_index_aligned_witness :
  exists results,
    generateBatch demoHost [str "apple"; str "book"; str "cat"] (str "medium")
      (fun i => worldCompleting (str "Item ___ here."))
      [2; 0; 1] =
      Fulfilled {| Batch.success := true; Batch.results := results |} /\
    map word results = [str "apple"; str "book"; str "cat"].
Proof.
  destruct (generateBatch_index_aligned demoHost
              [str "apple"; str "book"; str "cat"] (str "medium")
              (fun i => worldCompleting (str "Item ___ here."))
              [2; 0; 1])
    as (results & Run & _).
  - apply Permutation_sym.
    apply (perm_trans (l' := [0; 2; 1])); [apply perm_skip, perm_swap|].
    apply perm_swap.
  - exists results. split; [exact Run|].
    vm_compute in Run. now injection Run as <-.
Defined.

(* ================================================================== *)
(** ** Words without pattern syntax *)

Lemma plain_unit (c : ascii) :
  isSyntaxUnit c = false ->
  inEscapeClass c = false /\ eqUnit c BACKSLASH = false /\
  RegExp.charToken c = RegExp.TChar c.
Proof. by_code_unit c. Qed.

Lemma plainWord_cons (c : ascii) (w : jsString) :
  plainWord (c :: w) = true -> isSyntaxUnit c = false /\ plainWord w = true.
Proof.
  unfold plainWord. simpl. intros H. apply andb_true_iff in H as [Hc Hw].
  split; [now apply negb_true_iff|exact Hw].
Qed.

Lemma escapeWord_plain (w : jsString) : plainWord w = true -> escapeWord w = w.
Proof.
  induction w as [|c w IH]; intros H; [reflexivity|].
  apply plainWord_cons in H as [Hc Hw].
  destruct (plain_unit c Hc) as (Hclass & _).
  simpl. rewrite Hclass. cbn [andb]. rewrite (IH Hw).
  now destruct w as [|b1 [|b2 [|r rest]]].
Qed.

Lemma tokens_plain (w rest : jsString) :
  plainWord w = true ->
  RegExp.tokens (w ++ rest) = map RegExp.TChar w ++ RegExp.tokens rest.
Proof.
  induction w as [|c w IH]; intros H; [reflexivity|].
  apply plainWord_cons in H as [Hc Hw].
  destruct (plain_unit c Hc) as (_ & Hb & Ht).
  simpl. now rewrite Hb, Ht, (IH Hw).
Qed.

Lemma build_plain (w : jsString) :
  RegExp.build (map RegExp.TChar w ++ [RegExp.TBoundary true]) =
  RegExp.Terms (map literal w ++ [RegExp.WordBoundary true]).
Proof.
  induction w as [|c w IH]; [reflexivity|].
  simpl map. simpl app. simpl RegExp.build.
  destruct w as [|d w]; [reflexivity|].
  simpl map in *. simpl app in *. now rewrite IH.
Qed.

Lemma parse_plain (w : jsString) :
  plainWord w = true ->
  RegExp.parse (patternSource w) = RegExp.Terms (wordTerms w).
Proof.
  intros H. unfold RegExp.parse, patternSource, wordTerms.
  rewrite (escapeWord_plain w H).
  change (str "\b" ++ w ++ str "\b")
    with (BACKSLASH :: "b"%char :: (w ++ str "\b")).
  cbn [RegExp.tokens]. rewrite eqUnit_refl.
  rewrite (tokens_plain w (str "\b") H).
  change (RegExp.escapeToken "b") with (RegExp.TBoundary true).
  change (RegExp.tokens (str "\b")) with [RegExp.TBoundary true].
  cbn [RegExp.build]. now rewrite build_plain.
Qed.

Lemma matchTerms_literals (w : jsString) (prev : option ascii) (s : jsString) :
  RegExp.matchTerms (map literal w ++ [RegExp.WordBoundary true]) prev s =
  if wordEndsHere w prev s then Some (length w) else None.
Proof.
  revert prev s. induction w as [|x w IH]; intros prev s; simpl.
  - now destruct (RegExp.atWordBoundary prev s).
  - destruct s as [|y s]; simpl; [reflexivity|].
    destruct (eqUnit (canonicalize x) (canonicalize y)); simpl; [|reflexivity].
    rewrite IH. now destruct (wordEndsHere w (Some y) s).
Qed.

Lemma matchTerms_word (w : jsString) (prev : option ascii) (s : jsString) :
  RegExp.matchTerms (wordTerms w) prev s =
  if wholeWordHere w prev s then Some (length w) else None.
Proof.
  unfold wordTerms, wholeWordHere. cbn [RegExp.matchTerms].
  destruct (RegExp.atWordBoundary prev s); simpl; [|reflexivity].
  apply matchTerms_literals.
Qed.

Lemma searchFrom_word (w : jsString) (prev : option ascii) (s : jsString)
  (index : nat) :
  RegExp.searchFrom (wordTerms w) prev s index =
  option_map (fun i => (i, length w)) (firstWholeWord w prev s index).
Proof.
  revert prev index. induction s as [|c s IH]; intros prev index;
    cbn [RegExp.searchFrom firstWholeWord]; rewrite matchTerms_word.
  - now destruct (wholeWordHere w prev []).
  - destruct (wholeWordHere w prev (c :: s)); [reflexivity|]. apply IH.
Qed.

(** The first whole-word occurrence is found alike in a sentence and in
    its lower case. *)
Lemma firstWholeWord_lower (w : jsString) (s : jsString) :
  firstWholeWord w None (toLowerCase s) 0 = firstWholeWord w None s 0.
Proof.
  pose proof (searchFrom_lower (wordTerms w) None s 0) as H.
  simpl option_map in H. rewrite !searchFrom_word in H.
  destruct (firstWholeWord w None (toLowerCase s) 0),
           (firstWholeWord w None s 0); simpl in H; congruence.
Qed.

(** The branch without blank, for a plain word: the first whole-word
    occurrence is replaced by the blank; without one the blank becomes a
    token of its own in the middle of more than three tokens, and otherwise
    takes the place of the last code unit. *)
Lemma placeBlank_plain (host : Host) (sentence aWord : jsString) :
  plainWord aWord = true ->
  placeBlank host sentence aWord =
  Normal
    match firstWholeWord aWord None sentence 0 with
    | Some i => firstn i sentence ++ BLANK ++ skipn (i + length aWord) sentence
    | None =>
        if 3 <? length (splitSpace sentence)
        then joinSpace (spliceInsert (length (splitSpace sentence) / 2) BLANK
                          (splitSpace sentence))
        else dropLast sentence ++ str " ___."
    end.
Proof.
  intros H. unfold placeBlank, newRegExp. rewrite (parse_plain aWord H).
  unfold RegExp.test, RegExp.replace, RegExp.exec.
  rewrite !searchFrom_word, firstWholeWord_lower.
  destruct (firstWholeWord aWord None sentence 0); cbn [option_map];
    [reflexivity|].
  now destruct (3 <? length (splitSpace sentence)).
Qed.




(* ================================================================== *)
(** ** More about strings *)

Lemma Contains_refl (s : jsString) : Contains s s.
Proof. exists [], []. simpl. now rewrite app_nil_r. Qed.

Lemma Contains_trans (p q s : jsString) :
  Contains p q -> Contains q s -> Contains p s.
Proof.
  intros (a & b & ->) (c & d & ->).
  exists (c ++ a), (b ++ d). now rewrite <- !app_assoc.
Qed.

Lemma joinLines_Contains (line : jsString) (lines : list jsString) :
  In line lines -> Contains line (joinLines lines).
Proof.
  induction lines as [|l lines IH]; [intros []|].
  intros [<-|Hin].
  - destruct lines as [|l' lines]; [apply Contains_refl|].
    exists [], (LF :: joinLines (l' :: lines)). reflexivity.
  - destruct lines as [|l' lines]; [destruct Hin|].
    change (joinLines (l :: l' :: lines))
      with (l ++ LF :: joinLines (l' :: lines)).
    apply Contains_app_l.
    destruct (IH Hin) as (a & b & ->). now exists (LF :: a), b.
Qed.

(** *** Trimming *)

Lemma trimStart_suffix (s : jsString) :
  exists pre, s = pre ++ trimStart s /\ forallb isWhiteSpace pre = true.
Proof.
  induction s as [|c s (pre & E & Hpre)]; [now exists []|].
  simpl. destruct (isWhiteSpace c) eqn:Hc.
  - exists (c :: pre). simpl. rewrite Hc, Hpre. split; [now f_equal|reflexivity].
  - now exists [].
Qed.

Lemma trimStart_head (s : jsString) :
  match trimStart s with
  | c :: _ => isWhiteSpace c = false
  | [] => True
  end.
Proof.
  induction s as [|c s IH]; simpl; [exact I|].
  destruct (isWhiteSpace c) eqn:Hc; [exact IH|exact Hc].
Qed.

Lemma trimStart_fixed (s : jsString) :
  match s with c :: _ => isWhiteSpace c = false | [] => True end ->
  trimStart s = s.
Proof. destruct s as [|c s]; simpl; [reflexivity|]. now intros ->. Qed.

Lemma trimEnd_prefix (s : jsString) :
  exists suf, s = trimEnd s ++ suf /\ forallb isWhiteSpace suf = true.
Proof.
  unfold trimEnd. destruct (trimStart_suffix (rev s)) as (pre & E & Hpre).
  exists (rev pre). split.
  - rewrite <- (rev_involutive s) at 1. rewrite E at 1. apply rev_app_distr.
  - rewrite forallb_forall in *. intros c Hc. apply Hpre. now apply in_rev.
Qed.

Lemma trimEnd_last (s : jsString) : endsInWhiteSpace (trimEnd s) = false.
Proof.
  unfold endsInWhiteSpace, trimEnd. rewrite rev_involutive.
  pose proof (trimStart_head (rev s)) as H.
  now destruct (trimStart (rev s)).
Qed.

Lemma trimEnd_fixed (s : jsString) :
  endsInWhiteSpace s = false -> trimEnd s = s.
Proof.
  unfold endsInWhiteSpace, trimEnd. intros H.
  rewrite trimStart_fixed, rev_involutive; [reflexivity|].
  destruct (rev s); [exact I|exact H].
Qed.

Lemma trimEnd_head (s : jsString) :
  match s with c :: _ => isWhiteSpace c = false | [] => True end ->
  match trimEnd s with c :: _ => isWhiteSpace c = false | [] => True end.
Proof.
  destruct s as [|c s]; [intros _; exact I|]. intros Hc.
  pose proof (trimEnd_app [] s c Hc) as E. simpl app in E. now rewrite E.
Qed.

(** A trimmed text has white space at neither end. *)
Lemma trim_ends (s : jsString) :
  match trim s with c :: _ => isWhiteSpace c = false | [] => True end /\
  endsInWhiteSpace (trim s) = false.
Proof.
  unfold trim. split; [|apply trimEnd_last].
  apply trimEnd_head, trimStart_head.
Qed.

Lemma trim_fixed (s : jsString) :
  match s with c :: _ => isWhiteSpace c = false | [] => True end ->
  endsInWhiteSpace s = false -> trim s = s.
Proof.
  intros Hhead Hlast. unfold trim.
  now rewrite (trimStart_fixed s Hhead), (trimEnd_fixed s Hlast).
Qed.

Lemma trim_idempotent (s : jsString) : trim (trim s) = trim s.
Proof. destruct (trim_ends s). now apply trim_fixed. Qed.

Lemma trim_whiteSpace (s : jsString) :
  forallb isWhiteSpace s = true -> trim s = [].
Proof.
  intros H. unfold trim.
  assert (E : trimStart s = []).
  { induction s as [|c s IH]; [reflexivity|]. simpl in *.
    apply andb_true_iff in H as [-> Hs]. now apply IH. }
  now rewrite E.
Qed.

(** *** Single spacing *)



Lemma spacedFrom_prefix (afterSpace : bool) (a b : jsString) :
  spacedFrom afterSpace (a ++ b) = true -> spacedFrom afterSpace a = true.
Proof.
  revert afterSpace. induction a as [|c a IH]; intros afterSpace; simpl;
    [reflexivity|].
  destruct (isWhiteSpace c).
  - intros H. apply andb_true_iff in H as [-> H]. now rewrite (IH _ H).
  - apply IH.
Qed.

Lemma collapseFrom_spaced (inRun : bool) (s : jsString) :
  spacedFrom inRun (collapseFrom inRun s) = true.
Proof.
  revert inRun. induction s as [|c s IH]; intros inRun; simpl; [reflexivity|].
  destruct (isWhiteSpace c) eqn:Hc.
  - destruct inRun; [apply IH|].
    change (spacedFrom true (collapseFrom true s) = true). apply IH.
  - simpl. rewrite Hc. apply IH.
Qed.

Lemma trimStart_spaced (afterSpace : bool) (s : jsString) :
  spacedFrom afterSpace s = true -> spacedFrom true (trimStart s) = true.
Proof.
  revert afterSpace. induction s as [|c s IH]; intros afterSpace; simpl;
    [reflexivity|].
  destruct (isWhiteSpace c) eqn:Hc.
  - intros H. apply andb_true_iff in H as [_ H]. now apply (IH true).
  - intros H. simpl. now rewrite Hc.
Qed.

(** What white space normalization returns is single spaced. *)
Lemma normalizeWhiteSpace_singleSpaced (s : jsString) :
  singleSpaced (normalizeWhiteSpace s) = true.
Proof.
  unfold singleSpaced, normalizeWhiteSpace, collapseWhiteSpace, trim.
  rewrite trimEnd_last. rewrite andb_true_r.
  set (t := trimStart (collapseFrom false s)).
  assert (Ht : spacedFrom true t = true)
    by (apply (trimStart_spaced false), collapseFrom_spaced).
  destruct (trimEnd_prefix t) as (suf & E & _).
  rewrite E in Ht. exact (spacedFrom_prefix _ _ _ Ht).
Qed.



(* ================================================================== *)
(** ** The prompt and the client, further *)

(** X1. [createPrompt] never throws, takes three draws and sends nothing;
    its prompt holds the word as it is between double quotes, and the
    instruction of the difficulty as its third requirement. *)
Theorem createPrompt_holds_word_and_instruction (host : Host)
  (aWord aDifficulty : jsString) (w : World) :
  exists prompt w',
    createPrompt host aWord aDifficulty w = (Normal prompt, w') /\
    drawn w' = drawn w + 3 /\ fetched w' = fetched w /\
    Contains (DQUOTE :: aWord ++ [DQUOTE]) prompt /\
    Contains (str "3. " ++ instructionFor host aDifficulty) prompt.
Proof.
  rewrite createPrompt_run. do 2 eexists. split; [reflexivity|].
  split; [simpl; lia|]. split; [reflexivity|].
  unfold promptIn, promptText. split.
  - eapply Contains_trans; [|apply joinLines_Contains; right; left; reflexivity].
    exists (str "請為英語單詞 "), (str " 生成一個獨特的填空練習句子。").
    f_equal. cbn [app]. now rewrite <- app_assoc.
  - apply joinLines_Contains. do 6 right. left. reflexivity.
Qed.

(** X2. With a credential, [callDeepSeekAPI] sends one request and takes
    one draw whatever the answer is: there is no second attempt.  The
    request carries the prompt, the credential as a bearer token, 150
    tokens at most, no streaming, and a temperature from 0.50 to 0.90. *)
Theorem callDeepSeekAPI_sends_one_request (host : Host) (prompt : jsString)
  (w : World) :
  DEEPSEEK_API_KEY host <> [] ->
  exists outcome w' request,
    callDeepSeekAPI host prompt w = (outcome, w') /\
    fetched w' = fetched w ++ [request] /\
    drawn w' = drawn w + 1 /\
    userContent request = prompt /\
    authorization request = str "Bearer " ++ DEEPSEEK_API_KEY host /\
    max_tokens request = 150 /\ stream request = false /\
    50 <= temperatureHundredths request <= 90.
Proof.
  intros Key. rewrite (callDeepSeekAPI_run host prompt w Key).
  do 3 eexists. split; [reflexivity|].
  unfold sent, advance, requestIn.
  cbn [fetched drawn userContent authorization max_tokens stream
       temperatureHundredths].
  assert (Bound : draws w (drawn w) mod 41 < 41)
    by (apply Nat.mod_upper_bound; discriminate).
  repeat split; cbn [temperatureHundredths]; lia.
Qed.

Lemma callDeepSeekAPI_sends_one_request_witness :
  exists outcome w' request,
    callDeepSeekAPI demoHost (str "prompt")
      (worldAnswering (FetchResponse 500 (BodyRejects NonError))) = (outcome, w') /\
    fetched w' = [request] /\ temperatureHundredths request = 50.
Proof.
  destruct (callDeepSeekAPI_sends_one_request demoHost (str "prompt")
              (worldAnswering (FetchResponse 500 (BodyRejects NonError))))
    as (outcome & w' & request & Run & Sent & _).
  - discriminate.
  - exists outcome, w', request. split; [exact Run|].
    vm_compute in Run. injection Run as _ <-.
    vm_compute in Sent. injection Sent as <-. split; reflexivity.
Defined.

Lemma readResponse_returns (host : Host) (o : FetchOutcome) (text : jsString) :
  readResponse host o = Normal text ->
  exists status result choices first message s,
    o = FetchResponse status (BodyParsed result) /\
    responseOk status = true /\
    getProperty host (Some result) Kchoices = Normal choices /\
    isFalsy choices = false /\
    getProperty host choices Kzero = Normal first /\
    getProperty host first Kmessage = Normal message /\
    getProperty host message Kcontent = Normal (Some (JString s)) /\
    text = trim s.
Proof.
  unfold readResponse. destruct o as [e0 | status body]; [discriminate|].
  destruct (responseOk status) eqn:Ok; cbn [negb].
  2:{ destruct (status =? 401); [discriminate|].
      destruct (status =? 403); [discriminate|].
      destruct (status =? 429); [discriminate|].
      destruct (status =? 500); discriminate. }
  destruct body as [e0 | result]; [discriminate|].
  destruct (getProperty host (Some result) Kchoices) as [choices|] eqn:E1;
    [|discriminate].
  destruct (isFalsy choices) eqn:F; [discriminate|].
  destruct (getProperty host choices Klength) as [len|]; [|discriminate].
  destruct (isZero len); [discriminate|].
  destruct (getProperty host choices Kzero) as [first|] eqn:E3; [|discriminate].
  destruct (getProperty host first Kmessage) as [message|] eqn:E4; [|discriminate].
  destruct (getProperty host message Kcontent) as [content|] eqn:E5; [|discriminate].
  destruct content as [[| | |s| |]|]; try discriminate.
  intros H; injection H as <-.
  now exists status, result, choices, first, message, s.
Qed.

(** X3. Whatever [callDeepSeekAPI] throws is an [Error] object, a value
    that is no [Error] being replaced by the call failure error; whatever
    it returns is a trimmed text. *)
Theorem callDeepSeekAPI_throws_errors_returns_trimmed (host : Host)
  (prompt : jsString) (w : World) :
  match fst (callDeepSeekAPI host prompt w) with
  | Normal text => trim text = text
  | Throw e => exists m, e = ErrorObject m
  end.
Proof.
  destruct (callDeepSeekAPI host prompt w) as [[text|e] w'] eqn:Run; cbn [fst].
  - destruct (DEEPSEEK_API_KEY host) as [|k key] eqn:K.
    + rewrite (callDeepSeekAPI_unconfigured host prompt w K) in Run. discriminate.
    + rewrite callDeepSeekAPI_run in Run by (rewrite K; discriminate).
      injection Run as Run _.
      destruct (readResponse host (network w (requestIn host prompt w)))
        as [t|[m|]] eqn:R; cbn [rethrown] in Run; try discriminate.
      injection Run as <-.
      destruct (readResponse_returns host _ t R)
        as (_ & _ & _ & _ & _ & s & _ & _ & _ & _ & _ & _ & _ & ->).
      apply trim_idempotent.
  - destruct (callDeepSeekAPI_throws host prompt w w' e Run) as (m & -> & _).
    now exists m.
Qed.

(** X4. [callDeepSeekAPI] returns a text only when the answer is an ok
    response whose body was parsed and whose [choices[0].message.content]
    is a string; the text is that string, trimmed. *)
Theorem callDeepSeekAPI_returns_only_content (host : Host) (prompt : jsString)
  (w : World) (text : jsString) :
  fst (callDeepSeekAPI host prompt w) = Normal text ->
  DEEPSEEK_API_KEY host <> [] /\
  exists status result choices first message s,
    network w (requestIn host prompt w) = FetchResponse status (BodyParsed result) /\
    responseOk status = true /\
    getProperty host (Some result) Kchoices = Normal choices /\
    getProperty host choices Kzero = Normal first /\
    getProperty host first Kmessage = Normal message /\
    getProperty host message Kcontent = Normal (Some (JString s)) /\
    text = trim s.
Proof.
  destruct (DEEPSEEK_API_KEY host) as [|k key] eqn:K.
  - now rewrite (callDeepSeekAPI_unconfigured host prompt w K).
  - rewrite callDeepSeekAPI_run by (rewrite K; discriminate). cbn [fst].
    intros Run. split; [discriminate|].
    destruct (readResponse host (network w (requestIn host prompt w)))
      as [t|[m|]] eqn:R; cbn [rethrown] in Run; try discriminate.
    injection Run as <-.
    destruct (readResponse_returns host _ t R)
      as (status & result & choices & first & message & s &
          Ho & Ok & E1 & _ & E3 & E4 & E5 & ->).
    now exists status, result, choices, first, message, s.
Qed.

Lemma callDeepSeekAPI_returns_only_content_witness :
  exists s,
    getProperty demoHost
      (Some (JObject [(str "content", JString (str " Fill ___ in. "))])) Kcontent
      = Normal (Some (JString s)) /\
    str "Fill ___ in." = trim s.
Proof.
  destruct (callDeepSeekAPI_returns_only_content demoHost (str "prompt")
              (worldCompleting (str " Fill ___ in. ")) (str "Fill ___ in.") eq_refl)
    as (_ & status & result & choices & first & message & s &
        Answer & _ & E1 & E3 & E4 & E5 & Text).
  injection Answer as _ <-.
  injection E1 as <-. injection E3 as <-. injection E4 as <-.
  now exists s.
Defined.

(* ================================================================== *)
(** ** The orchestrator, further *)

(** The run of [generateSentenceForWord] on a word that is not empty. *)
Lemma generateSentenceForWord_run (host : Host) (aWord : jsString)
  (difficultyArg : option jsString) (w : World) :
  aWord <> [] ->
  generateSentenceForWord host aWord difficultyArg w =
  match callDeepSeekAPI host
          (promptIn host aWord (defaulted difficultyArg) w)
          (advance (advance (advance w))) with
  | (Normal response, w4) =>
      match extractSentence host response aWord with
      | Normal s =>
          (Normal (successResult aWord (defaulted difficultyArg) s), w4)
      | Throw e =>
          (Normal (failureResult aWord (defaulted difficultyArg)
                     (templateIn w4) (messageOf e)), advance w4)
      end
  | (Throw e, w4) =>
      (Normal (failureResult aWord (defaulted difficultyArg)
                 (templateIn w4) (messageOf e)), advance w4)
  end.
Proof.
  intros Hword. unfold generateSentenceForWord. fold (defaulted difficultyArg).
  destruct aWord as [|c rest]; [congruence|].
  cbn [orb length Nat.ltb Nat.leb]. set (aWord := c :: rest).
  unfold tryCatch, bind. rewrite createPrompt_run.
  destruct (callDeepSeekAPI host _ _) as [[response|e] w4].
  - unfold lift. destruct (extractSentence host response aWord) as [s|e].
    + reflexivity.
    + rewrite generateFallbackSentence_run. now destruct e.
  - rewrite generateFallbackSentence_run. now destruct e.
Qed.

(** The call in a world that answers every request with a completion. *)
Lemma callDeepSeekAPI_completing (host : Host) (prompt content : jsString)
  (w : World) :
  DEEPSEEK_API_KEY host <> [] ->
  alwaysAnswers w (FetchResponse 200 (BodyParsed (completionBody content))) ->
  callDeepSeekAPI host prompt w =
  (Normal (trim content), sent (requestIn host prompt w) (advance w)).
Proof.
  intros Key Answer. rewrite (callDeepSeekAPI_run host prompt w Key).
  now rewrite (Answer (requestIn host prompt w)).
Qed.

Lemma trim_three (a b : jsString) (u : ascii) :
  isWhiteSpace u = false ->
  trim (a ++ [u; u; u] ++ b) = trimStart a ++ [u; u; u] ++ trimEnd b.
Proof.
  intros Hu. unfold trim. simpl app.
  rewrite (trimStart_app _ _ _ Hu).
  change (trimStart a ++ u :: u :: u :: b)
    with (trimStart a ++ [u; u] ++ u :: b).
  now rewrite app_assoc, (trimEnd_app _ _ _ Hu), <- app_assoc.
Qed.

Lemma trim_keeps_blank (s : jsString) :
  Contains BLANK s -> Contains BLANK (trim s).
Proof.
  destruct blank_units as [E Hu]. rewrite E. intros (a & b & ->).
  rewrite (trim_three _ _ _ Hu). now exists (trimStart a), (trimEnd b).
Qed.

Lemma quote_not_underscore :
  eqUnit DQUOTE UNDERSCORE = false /\ eqUnit SQUOTE UNDERSCORE = false.
Proof. split; reflexivity. Qed.

(** Taking the first and the last code unit away keeps a blank when
    neither is an underscore. *)
Lemma sliceInner_keeps_blank (q : ascii) (s : jsString) :
  eqUnit q UNDERSCORE = false ->
  startsWith [q] s = true -> endsWith [q] s = true ->
  Contains BLANK s -> Contains BLANK (sliceInner s).
Proof.
  destruct blank_units as [E _]. rewrite E.
  intros Hq Hstart Hend (a & b & ->). unfold sliceInner.
  destruct a as [|h a].
  - simpl in Hstart. rewrite Hq in Hstart. discriminate.
  - simpl tl. induction b as [|x b' _] using rev_ind.
    + unfold endsWith in Hend. rewrite app_nil_r in Hend.
      change (h :: a ++ [UNDERSCORE; UNDERSCORE; UNDERSCORE])
        with ((h :: a ++ [UNDERSCORE; UNDERSCORE]) ++ [UNDERSCORE]) in Hend.
      rewrite rev_app_distr in Hend. simpl in Hend.
      rewrite Hq in Hend. discriminate.
    + exists a, b'.
      transitivity
        (removelast ((a ++ [UNDERSCORE; UNDERSCORE; UNDERSCORE] ++ b') ++ [x]));
        [f_equal; now rewrite <- !app_assoc | apply removelast_last].
Qed.

Lemma stripQuotes_keeps_blank (s : jsString) :
  Contains BLANK s -> Contains BLANK (stripQuotes s).
Proof.
  intros H. unfold stripQuotes.
  destruct (startsWith [DQUOTE] s && endsWith [DQUOTE] s) eqn:D; cbn [orb].
  - apply andb_true_iff in D as [D1 D2].
    exact (sliceInner_keeps_blank DQUOTE s (proj1 quote_not_underscore) D1 D2 H).
  - destruct (startsWith [SQUOTE] s && endsWith [SQUOTE] s) eqn:Q; [|exact H].
    apply andb_true_iff in Q as [Q1 Q2].
    exact (sliceInner_keeps_blank SQUOTE s (proj2 quote_not_underscore) Q1 Q2 H).
Qed.

(** The normalizer on a response that holds a blank: neither the word nor
    the host is consulted. *)
Lemma extractSentence_with_blank (host : Host) (response aWord : jsString) :
  includes BLANK response = true ->
  extractSentence host response aWord =
  Normal (normalizeWhiteSpace (ensureTerminal (stripQuotes (trim response)))).
Proof.
  intros H. unfold extractSentence.
  assert (I : includes BLANK (stripQuotes (trim response)) = true).
  { apply includes_Contains, stripQuotes_keeps_blank, trim_keeps_blank.
    now apply includes_Contains. }
  now rewrite I.
Qed.

(** X5. When the completion holds the blank marker, the call succeeds for
    every word that is not empty, a word the pattern engine refuses
    included: the sentence is the completion without its quotes, ended by
    punctuation and single spaced. *)
Theorem completion_with_blank_succeeds (host : Host) (aWord : jsString)
  (difficultyArg : option jsString) (content : jsString) (w : World) :
  aWord <> [] ->
  DEEPSEEK_API_KEY host <> [] ->
  alwaysAnswers w (FetchResponse 200 (BodyParsed (completionBody content))) ->
  includes BLANK content = true ->
  exists r w',
    generateSentenceForWord host aWord difficultyArg w = (Normal r, w') /\
    success r = true /\ fallback r = false /\ error r = None /\
    sentence r =
      normalizeWhiteSpace (ensureTerminal (stripQuotes (trim content))).
Proof.
  intros Hword Key Answer Blank.
  rewrite (generateSentenceForWord_run host aWord difficultyArg w Hword).
  rewrite (callDeepSeekAPI_completing host _ content _ Key)
    by (intros r; apply Answer).
  rewrite extractSentence_with_blank
    by (apply includes_Contains, trim_keeps_blank; now apply includes_Contains).
  rewrite trim_idempotent. do 2 eexists. split; [reflexivity|].
  repeat split.
Qed.

Lemma completion_with_blank_succeeds_witness :
  exists r w',
    generateSentenceForWord demoHost (str "c++") None
      (worldCompleting (str "'I write   ___ every day'")) = (Normal r, w') /\
    success r = true /\ sentence r = str "I write ___ every day.".
Proof.
  destruct (completion_with_blank_succeeds demoHost (str "c++") None
              (str "'I write   ___ every day'")
              (worldCompleting (str "'I write   ___ every day'")))
    as (r & w' & Run & Hs & _ & _ & Hsentence).
  - discriminate.
  - discriminate.
  - intros r. reflexivity.
  - reflexivity.
  - exists r, w'. repeat split; [exact Run|exact Hs|].
    rewrite Hsentence. reflexivity.
Defined.

Lemma extractSentence_singleSpaced (host : Host) (response aWord s : jsString) :
  extractSentence host response aWord = Normal s -> singleSpaced s = true.
Proof.
  unfold extractSentence.
  destruct (if negb (includes BLANK (stripQuotes (trim response)))
            then placeBlank host (stripQuotes (trim response)) aWord
            else Normal (stripQuotes (trim response))); [|discriminate].
  intros H; injection H as <-. apply normalizeWhiteSpace_singleSpaced.
Qed.

Lemma templates_singleSpaced (s : jsString) :
  In s templates -> singleSpaced s = true.
Proof.
  unfold templates. simpl In.
  intros [<-|[<-|[<-|[<-|[<-|[<-|[<-|[<-|[]]]]]]]]]; reflexivity.
Qed.

(** X6. The sentence of every result, generated or fallback, is on one
    line and single spaced: no tab, line break or other white space than
    the space, no two spaces in a row, none at either end. *)
Theorem sentence_is_single_spaced (host : Host) (aWord : jsString)
  (difficultyArg : option jsString) (w : World) :
  exists r w',
    generateSentenceForWord host aWord difficultyArg w = (Normal r, w') /\
    singleSpaced (sentence r) = true.
Proof.
  destruct (generateSentenceForWord_shape host aWord difficultyArg w)
    as (r & w' & Run & _ & _ &
        [(_ & _ & Hin & _) | (_ & _ & _ & response & Ex)]);
    exists r, w'; (split; [exact Run|]).
  - now apply templates_singleSpaced.
  - exact (extractSentence_singleSpaced host response aWord _ Ex).
Qed.





(* ================================================================== *)
(** ** The pattern of a word, further *)

Lemma includes_tail (p s : jsString) (c : ascii) :
  includes p (c :: s) = false -> includes p s = false.
Proof.
  rewrite (includes_unfold p (c :: s)). intros H.
  now apply orb_false_iff in H as [_ H].
Qed.

Lemma includes_false_startsWith (p s : jsString) :
  includes p s = false -> startsWith p s = false.
Proof.
  rewrite includes_unfold. intros H. now apply orb_false_iff in H as [H _].
Qed.

Lemma escapeWord_cons (c : ascii) (rest : jsString) :
  startsWith escapeTail rest = false ->
  escapeWord (c :: rest) = c :: escapeWord rest.
Proof.
  intros H. cbn [escapeWord].
  destruct rest as [|b1 [|b2 [|r rest']]]; try reflexivity.
  assert (F : inEscapeClass c && eqUnit b1 BACKSLASH && eqUnit b2 BACKSLASH
              && (code r =? 93) = false).
  { cbn [escapeTail startsWith] in H. rewrite andb_true_r in H.
    destruct (eqUnit b1 BACKSLASH) eqn:E1; [|now rewrite andb_false_r].
    destruct (eqUnit b2 BACKSLASH) eqn:E2; [|now rewrite andb_false_r].
    apply eqUnit_true in E1, E2. subst.
    rewrite !eqUnit_refl in H. cbn [andb] in H.
    unfold eqUnit in H. apply Ascii.eqb_neq in H.
    rewrite !andb_true_r. apply andb_false_intro2.
    apply Nat.eqb_neq. intros Hr. apply H.
    rewrite <- (ascii_nat_embedding r). unfold code in Hr. now rewrite Hr. }
  now rewrite F.
Qed.

(** X8. The escaping step changes a word only where a metacharacter is
    followed by two backslashes and a closing bracket: a word without
    that sequence of three code units reaches the pattern as it is, its
    metacharacters unescaped. *)
Theorem escapeWord_leaves_word (aWord : jsString) :
  includes escapeTail aWord = false ->
  escapeWord aWord = aWord /\
  patternSource aWord = str "\b" ++ aWord ++ str "\b".
Proof.
  intros H.
  assert (E : escapeWord aWord = aWord).
  { induction aWord as [|c rest IH]; [reflexivity|].
    pose proof (includes_tail _ _ _ H) as Hrest.
    rewrite escapeWord_cons by now apply includes_false_startsWith.
    now rewrite (IH Hrest). }
  split; [exact E|]. unfold patternSource. now rewrite E.
Qed.

Lemma escapeWord_leaves_word_witness :
  escapeWord (str "U.S. (c++) [a|b]? \d{2}^$") = str "U.S. (c++) [a|b]? \d{2}^$".
Proof.
  exact (proj1 (escapeWord_leaves_word (str "U.S. (c++) [a|b]? \d{2}^$") eq_refl)).
Defined.

Lemma quantifier_unit (c : ascii) :
  isQuantifierUnit c = true ->
  eqUnit c BACKSLASH = false /\ exists q, RegExp.charToken c = RegExp.TQuant q.
Proof.
  destruct c as [[] [] [] [] [] [] [] []]; vm_compute; intros H;
    try discriminate H; split; try reflexivity; eauto.
Qed.

(** The pattern of a word that opens with a quantifier is refused. *)
Lemma leading_quantifier_refused (c : ascii) (rest : jsString) :
  isQuantifierUnit c = true ->
  includes escapeTail (c :: rest) = false ->
  RegExp.parse (patternSource (c :: rest)) = RegExp.SyntaxError.
Proof.
  intros Hc Hfree.
  destruct (escapeWord_leaves_word (c :: rest) Hfree) as [_ ->].
  destruct (quantifier_unit c Hc) as (Hb & q & Hq).
  unfold RegExp.parse.
  change (str "\b" ++ (c :: rest) ++ str "\b")
    with (BACKSLASH :: "b"%char :: c :: (rest ++ str "\b")).
  cbn [RegExp.tokens]. rewrite eqUnit_refl, Hb, Hq.
  reflexivity.
Qed.

(** X9. A word that opens with [*], [+] or [?] never gets a generated
    sentence from a completion without blank: the request is sent and
    answered, the pattern of the word is refused, and the result is a
    fallback whose error is the engine's message for the pattern. *)
Theorem leading_quantifier_word_falls_back (host : Host) (c : ascii)
  (rest : jsString) (difficultyArg : option jsString) (content : jsString)
  (w : World) :
  isQuantifierUnit c = true ->
  includes escapeTail (c :: rest) = false ->
  DEEPSEEK_API_KEY host <> [] ->
  alwaysAnswers w (FetchResponse 200 (BodyParsed (completionBody content))) ->
  includes BLANK (stripQuotes (trim content)) = false ->
  exists r w' request,
    generateSentenceForWord host (c :: rest) difficultyArg w = (Normal r, w') /\
    fetched w' = fetched w ++ [request] /\
    success r = false /\ fallback r = true /\ In (sentence r) templates /\
    error r = Some (engineMessage host (InvalidRegExp (patternSource (c :: rest)))).
Proof.
  intros Hc Hfree Key Answer NoBlank.
  rewrite generateSentenceForWord_run by discriminate.
  rewrite (callDeepSeekAPI_completing host _ content _ Key)
    by (intros r; apply Answer).
  unfold extractSentence. rewrite trim_idempotent, NoBlank. cbn [negb].
  unfold placeBlank, newRegExp.
  rewrite (leading_quantifier_refused c rest Hc Hfree).
  do 3 eexists. split; [reflexivity|].
  split; [reflexivity|]. repeat split. apply templateIn_templates.
Qed.

Lemma leading_quantifier_word_falls_back_witness :
  exists r w',
    generateSentenceForWord demoHost (str "*nix") None
      (worldCompleting (str "I run a *nix server at home.")) = (Normal r, w') /\
    success r = false /\ error r = Some (str "TypeError").
Proof.
  destruct (leading_quantifier_word_falls_back demoHost "*"%char (str "nix")
              None (str "I run a *nix server at home.")
              (worldCompleting (str "I run a *nix server at home.")))
    as (r & w' & request & Run & _ & Hs & _ & _ & He).
  - reflexivity.
  - reflexivity.
  - discriminate.
  - intros r. reflexivity.
  - reflexivity.
  - exists r, w'. repeat split; assumption.
Defined.

(* ================================================================== *)
(** ** What a call costs and reports *)

Ltac result_fields :=
  unfold failureResult, successResult, advance, sent;
  cbn [success fallback error sentence word difficulty
       fetched drawn draws network].

(** X10. The flags of a result agree: [fallback] is the negation of
    [success], and [error] is absent exactly on success. *)
Theorem result_flags_agree (host : Host) (aWord : jsString)
  (difficultyArg : option jsString) (w : World) :
  exists r w',
    generateSentenceForWord host aWord difficultyArg w = (Normal r, w') /\
    fallback r = negb (success r) /\
    (error r = None <-> success r = true).
Proof.
  destruct (generateSentenceForWord_shape host aWord difficultyArg w)
    as (r & w' & Run & _ & _ &
        [(Hs & Hf & _ & m & Hm & _) | (Hs & Hf & He & _)]);
    exists r, w'; (split; [exact Run|]); rewrite Hs, Hf; split; try reflexivity.
  - rewrite Hm. split; discriminate.
  - now rewrite He.
Qed.

(** X11. One call of [generateSentenceForWord] sends at most one request
    and takes from one to five draws; it sends none without a credential
    or for the empty word, and a success always comes with its one
    request.  The network and the source of draws are left as they
    were. *)
Theorem call_sends_at_most_one_request (host : Host) (aWord : jsString)
  (difficultyArg : option jsString) (w : World) :
  exists r w',
    generateSentenceForWord host aWord difficultyArg w = (Normal r, w') /\
    draws w' = draws w /\ network w' = network w /\
    drawn w < drawn w' <= drawn w + 5 /\
    (fetched w' = fetched w \/ exists request, fetched w' = fetched w ++ [request]) /\
    (DEEPSEEK_API_KEY host = [] \/ aWord = [] -> fetched w' = fetched w) /\
    (success r = true -> exists request, fetched w' = fetched w ++ [request]).
Proof.
  destruct aWord as [|c rest].
  - unfold generateSentenceForWord. cbn [orb]. unfold bind.
    rewrite generateFallbackSentence_run. unfold ret.
    do 2 eexists. split; [reflexivity|]. cbn.
    repeat split; try lia; auto; try discriminate.
  - rewrite generateSentenceForWord_run by discriminate.
    set (prompt := promptIn host (c :: rest) (defaulted difficultyArg) w).
    set (w3 := advance (advance (advance w))).
    destruct (DEEPSEEK_API_KEY host) as [|k key] eqn:K.
    + rewrite (callDeepSeekAPI_unconfigured host prompt w3 K).
      do 2 eexists. split; [reflexivity|]. cbn.
      repeat split; try lia; auto; try discriminate.
    + assert (Key : DEEPSEEK_API_KEY host <> []) by (rewrite K; discriminate).
      rewrite (callDeepSeekAPI_run host prompt w3 Key).
      destruct (rethrown (readResponse host (network w3 (requestIn host prompt w3))))
        as [response|e].
      * destruct (extractSentence host response (c :: rest)) as [s|e];
          do 2 eexists; (split; [reflexivity|]); cbn;
          repeat split; try lia; eauto; intros [H|H]; discriminate H.
      * do 2 eexists. split; [reflexivity|]. cbn.
        repeat split; try lia; eauto; try discriminate.
        intros [H|H]; discriminate H.
Qed.

(** X12. Without a credential a word that is not empty gets a fallback
    whose error is the configuration error; no request is sent, and the
    call takes the three draws of the prompt and the draw of the
    template. *)
Theorem missing_credential_falls_back (host : Host) (aWord : jsString)
  (difficultyArg : option jsString) (w : World) :
  DEEPSEEK_API_KEY host = [] ->
  aWord <> [] ->
  exists r w',
    generateSentenceForWord host aWord difficultyArg w = (Normal r, w') /\
    success r = false /\ fallback r = true /\
    error r = Some msgNotConfigured /\
    In (sentence r) templates /\
    fetched w' = fetched w /\ drawn w' = drawn w + 4.
Proof.
  intros K Hword. rewrite generateSentenceForWord_run by exact Hword.
  rewrite (callDeepSeekAPI_unconfigured host _ _ K).
  do 2 eexists. split; [reflexivity|]. result_fields.
  repeat split; [apply templateIn_templates | lia].
Qed.

Lemma missing_credential_falls_back_witness :
  exists r w',
    generateSentenceForWord unconfiguredHost (str "cat") (Some (str "hard"))
      (worldCompleting (str "A ___ purrs.")) = (Normal r, w') /\
    error r = Some msgNotConfigured /\ fetched w' = [].
Proof.
  destruct (missing_credential_falls_back unconfiguredHost (str "cat")
              (Some (str "hard")) (worldCompleting (str "A ___ purrs.")))
    as (r & w' & Run & _ & _ & He & _ & Hf & _).
  - reflexivity.
  - discriminate.
  - now exists r, w'.
Defined.

(** X13. What the client throws is what the result reports: when the
    network's answer makes the response handling throw, the result is a
    fallback whose error is the message of that error, and the call
    failure message when the thrown value is no [Error]. *)
Theorem client_error_is_reported (host : Host) (aWord : jsString)
  (difficultyArg : option jsString) (w : World) (o : FetchOutcome)
  (e : JsThrown) :
  aWord <> [] ->
  DEEPSEEK_API_KEY host <> [] ->
  alwaysAnswers w o ->
  readResponse host o = Throw e ->
  exists r w',
    generateSentenceForWord host aWord difficultyArg w = (Normal r, w') /\
    success r = false /\ fallback r = true /\ In (sentence r) templates /\
    error r = Some match e with
                   | ErrorObject m => m
                   | NonError => msgCallFailed
                   end.
Proof.
  intros Hword Key Answer Thrown.
  rewrite generateSentenceForWord_run by exact Hword.
  rewrite callDeepSeekAPI_run by exact Key.
  change (network (advance (advance (advance w)))) with (network w).
  rewrite (Answer _), Thrown.
  destruct e as [m|]; cbn [rethrown];
    do 2 eexists; (split; [reflexivity|]); result_fields;
    repeat split; apply templateIn_templates.
Qed.

Lemma client_error_is_reported_witness :
  exists r w',
    generateSentenceForWord demoHost (str "cat") None
      (worldAnswering (FetchRejects NonError)) = (Normal r, w') /\
    error r = Some msgCallFailed.
Proof.
  destruct (client_error_is_reported demoHost (str "cat") None
              (worldAnswering (FetchRejects NonError))
              (FetchRejects NonError) NonError)
    as (r & w' & Run & _ & _ & _ & He).
  - discriminate.
  - discriminate.
  - intros r. reflexivity.
  - reflexivity.
  - now exists r, w'.
Defined.

(* ================================================================== *)
(** ** Splitting and joining *)


Lemma joinOn_cons (sep : ascii) (p : jsString) (rest : list jsString) :
  rest <> [] -> joinOn sep (p :: rest) = p ++ sep :: joinOn sep rest.
Proof. destruct rest; [congruence|reflexivity]. Qed.



Lemma splitOn_free_piece (sep : ascii) (p : jsString) :
  freeOf sep p = true -> splitOn sep p = [p].
Proof.
  induction p as [|c p IH]; [reflexivity|]. unfold freeOf. simpl.
  intros H. apply andb_true_iff in H as [Hc Hp]. apply negb_true_iff in Hc.
  now rewrite Hc, (IH Hp).
Qed.

Lemma splitOn_app (sep : ascii) (p rest : jsString) :
  freeOf sep p = true ->
  splitOn sep (p ++ sep :: rest) = p :: splitOn sep rest.
Proof.
  induction p as [|c p IH]; unfold freeOf; simpl.
  - intros _. now rewrite eqUnit_refl.
  - intros H. apply andb_true_iff in H as [Hc Hp]. apply negb_true_iff in Hc.
    now rewrite Hc, (IH Hp).
Qed.

(** Splitting what a join of pieces without separator gave returns the
    pieces. *)
Lemma splitOn_joinOn (sep : ascii) (pieces : list jsString) :
  pieces <> [] ->
  Forall (fun p => freeOf sep p = true) pieces ->
  splitOn sep (joinOn sep pieces) = pieces.
Proof.
  induction pieces as [|p rest IH]; [congruence|]. intros _ H.
  inversion H as [|? ? Hp Hrest]; subst.
  destruct rest as [|q rest].
  - now apply splitOn_free_piece.
  - rewrite joinOn_cons by discriminate.
    rewrite (splitOn_app sep p _ Hp). f_equal. apply IH; [discriminate|exact Hrest].
Qed.




(* ================================================================== *)
(** ** The branches of the normalizer, further *)









(** X16. An empty completion is not a failure: when the content of the
    completion is empty or white space only, a word without pattern
    syntax gets the sentence [___.] with [success:true] and
    [fallback:false]. *)
Theorem blank_completion_is_a_success (host : Host) (aWord : jsString)
  (difficultyArg : option jsString) (content : jsString) (w : World) :
  aWord <> [] ->
  plainWord aWord = true ->
  DEEPSEEK_API_KEY host <> [] ->
  alwaysAnswers w (FetchResponse 200 (BodyParsed (completionBody content))) ->
  forallb isWhiteSpace content = true ->
  exists r w',
    generateSentenceForWord host aWord difficultyArg w = (Normal r, w') /\
    success r = true /\ fallback r = false /\ sentence r = str "___.".
Proof.
  intros Hword Plain Key Answer White.
  rewrite (generateSentenceForWord_run host aWord difficultyArg w Hword).
  rewrite (callDeepSeekAPI_completing host _ content _ Key)
    by (intros r; apply Answer).
  rewrite (trim_whiteSpace content White).
  unfold extractSentence.
  change (stripQuotes (trim [])) with (@nil ascii).
  change (negb (includes BLANK [])) with true. cbn iota.
  rewrite (placeBlank_plain host [] aWord Plain).
  assert (E : firstWholeWord aWord None [] 0 = None) by reflexivity.
  rewrite E. do 2 eexists. split; [reflexivity|]. repeat split.
Qed.

Lemma blank_completion_is_a_success_witness :
  exists r w',
    generateSentenceForWord demoHost (str "cat") None
      (worldCompleting (str "   ")) = (Normal r, w') /\
    success r = true /\ sentence r = str "___.".
Proof.
  destruct (blank_completion_is_a_success demoHost (str "cat") None
              (str "   ") (worldCompleting (str "   ")))
    as (r & w' & Run & Hs & _ & Hsentence).
  - discriminate.
  - reflexivity.
  - discriminate.
  - intros r. reflexivity.
  - reflexivity.
  - now exists r, w'.
Defined.

(* ================================================================== *)
(** ** The batch, further *)

Lemma allFilled_Some {A} (slots : list (option A)) (values : list A) :
  allFilled slots = Some values -> slots = map Some values.
Proof.
  revert values. induction slots as [|slot slots IH]; intros values; simpl.
  - now intros H; injection H as <-.
  - destruct slot as [v|]; [|discriminate].
    destruct (allFilled slots) as [vs|]; [|discriminate].
    intros H; injection H as <-. simpl. now rewrite (IH vs eq_refl).
Qed.

(** Whatever the order, even one that leaves promises out or names
    them twice: fulfilled promises never reject the whole, and a slot that
    is filled holds the value of its own promise. *)
Lemma settleAll_any {A} (values : list A) (order : list nat) :
  forall slots,
  length slots = length values ->
  (forall i v, nth_error slots i = Some (Some v) -> nth_error values i = Some v) ->
  exists slots',
    settleAll (map Normal values) order slots = Normal slots' /\
    length slots' = length values /\
    forall i v, nth_error slots' i = Some (Some v) -> nth_error values i = Some v.
Proof.
  induction order as [|j later IH]; intros slots Hlen Hslots.
  - now exists slots.
  - simpl settleAll. rewrite nth_error_map.
    destruct (nth_error values j) as [v|] eqn:Ej; simpl; [|now apply IH].
    apply IH; [now rewrite setSlot_length|].
    intros i v' Hi. destruct (Nat.eq_dec i j) as [->|Hneq].
    + assert (Hj : j < length slots).
      { rewrite Hlen. apply nth_error_Some. congruence. }
      rewrite (setSlot_same j v slots Hj) in Hi. congruence.
    + rewrite (setSlot_other j i v slots Hneq) in Hi. now apply Hslots.
Qed.

Lemma promiseAll_any {A} (values : list A) (order : list nat) :
  promiseAll (map Normal values) order = Pending \/
  promiseAll (map Normal values) order = Fulfilled values.
Proof.
  unfold promiseAll. rewrite length_map.
  destruct (settleAll_any values order (repeat None (length values)))
    as (slots' & -> & Hlen & Hslots).
  - apply repeat_length.
  - intros i v H. apply nth_error_In, repeat_spec in H. discriminate.
  - destruct (allFilled slots') as [results|] eqn:Filled; [right|now left].
    apply allFilled_Some in Filled. subst slots'.
    rewrite length_map in Hlen. f_equal.
    apply nth_error_ext. intros i.
    destruct (nth_error results i) as [r|] eqn:Er.
    + symmetry. apply Hslots. rewrite nth_error_map, Er. reflexivity.
    + apply nth_error_None in Er. symmetry. apply nth_error_None. lia.
Qed.

(** The calls of a batch fulfil with results that carry the words, in
    order, and the difficulty of the batch. *)
Lemma startAll_words (host : Host) (aDifficulty : jsString)
  (worlds : nat -> World) (words : list jsString) :
  forall index,
  exists values,
    startAll host aDifficulty worlds index words = map Normal values /\
    map word values = words /\
    Forall (fun r => difficulty r = aDifficulty) values.
Proof.
  induction words as [|aWord words IH]; intros index.
  - exists []. repeat split. constructor.
  - destruct (IH (S index)) as (values & Tail & Hwords & Hdiff).
    destruct (generateSentenceForWord_shape host aWord (Some aDifficulty)
                (worlds index)) as (r & w' & Run & Hw & Hd & _).
    exists (r :: values). simpl. rewrite Run, Tail, Hw, Hwords.
    repeat split. now constructor.
Qed.

(** X17. [generateBatch] never rejects, in whatever order its calls
    settle and even if some never do: it is pending, or it is fulfilled
    with [success:true] and results that carry the input words, in order,
    each with the difficulty of the batch. *)
Theorem generateBatch_never_rejects (host : Host) (words : list jsString)
  (aDifficulty : jsString) (worlds : nat -> World) (order : list nat) :
  generateBatch host words aDifficulty worlds order = Pending \/
  exists results,
    generateBatch host words aDifficulty worlds order =
      Fulfilled {| Batch.success := true; Batch.results := results |} /\
    map word results = words /\
    Forall (fun r => difficulty r = aDifficulty) results.
Proof.
  destruct (startAll_words host aDifficulty worlds words 0)
    as (values & Started & Hwords & Hdiff).
  unfold generateBatch. rewrite Started.
  destruct (promiseAll_any values order) as [-> | ->]; [now left|right].
  now exists values.
Qed.

(* ================================================================== *)
(** ** Session cookies *)

Lemma eqString_refl (s : jsString) : eqString s s = true.
Proof. induction s as [|c s IH]; simpl; [reflexivity|]. now rewrite eqUnit_refl. Qed.

Lemma eqString_true (a b : jsString) : eqString a b = true -> a = b.
Proof.
  revert b. induction a as [|x a IH]; intros [|y b]; simpl; try discriminate;
    [reflexivity|].
  intros H. apply andb_true_iff in H as [Hx Ha].
  apply eqUnit_true in Hx. now rewrite Hx, (IH b Ha).
Qed.

Lemma eqString_false (a b : jsString) : a <> b -> eqString a b = false.
Proof.
  intros H. destruct (eqString a b) eqn:E; [|reflexivity].
  now apply eqString_true in E.
Qed.

(** X18. [logout] makes one call, [clearCookie] of the session cookie
    with [maxAge] -1, [httpOnly], path [/] and [sameSite] none, and
    answers [success:true].  The cookie is [secure] when the protocol of
    the request is https; otherwise, for a forwarded-protocol header that
    lists entries separated by commas, exactly when one of the entries is
    https once trimmed and put in lower case; and never when the header is
    absent or empty. *)
Theorem logout_clears_session_cookie (COOKIE_NAME : jsString)
  (p : option jsString) (header : Cookies.HeaderValue) :
  exists options,
    Cookies.logout COOKIE_NAME
      {| Cookies.protocol := p; Cookies.forwardedProto := header |} =
      ([{| Cookies.cookieName := COOKIE_NAME; Cookies.cookieOptions := options |}],
       {| Cookies.success := true |}) /\
    Cookies.maxAge options = Some (-1)%Z /\
    Cookies.httpOnly options = true /\
    Cookies.path options = str "/" /\
    Cookies.sameSite options = str "none" /\
    (p = Some Cookies.HTTPS -> Cookies.secure options = true) /\
    (p <> Some Cookies.HTTPS ->
     (header = Cookies.Absent \/ header = Cookies.Text [] ->
      Cookies.secure options = false) /\
     (forall entries,
        entries <> [] ->
        Forall (fun e => freeOf ","%char e = true) entries ->
        header = Cookies.Text (joinOn ","%char entries) ->
        joinOn ","%char entries <> [] ->
        Cookies.secure options = existsb Cookies.isHttps entries) /\
     (forall entries,
        header = Cookies.Texts entries ->
        Cookies.secure options = existsb Cookies.isHttps entries)).
Proof.
  eexists. split; [reflexivity|].
  cbn [Cookies.maxAge Cookies.httpOnly Cookies.path Cookies.sameSite
       Cookies.secure Cookies.getSessionCookieOptions].
  repeat split.
  - intros ->. reflexivity.
  - intros [-> | ->]; unfold Cookies.isSecureRequest;
      cbn [Cookies.protocol Cookies.forwardedProto];
      destruct p as [q|]; try reflexivity;
      rewrite eqString_false by congruence; reflexivity.
  - intros entries Hne Hfree -> Hjoin.
    unfold Cookies.isSecureRequest.
    cbn [Cookies.protocol Cookies.forwardedProto].
    assert (E : match p with
                | Some q => eqString q Cookies.HTTPS
                | None => false
                end = false).
    { destruct p as [q|]; [|reflexivity]. apply eqString_false. congruence. }
    rewrite E.
    destruct (joinOn ","%char entries) as [|c rest] eqn:J; [congruence|].
    rewrite <- J. now rewrite (splitOn_joinOn ","%char entries Hne Hfree).
  - intros entries ->. unfold Cookies.isSecureRequest.
    cbn [Cookies.protocol Cookies.forwardedProto].
    destruct p as [q|]; [|reflexivity].
    rewrite eqString_false by congruence. reflexivity.
Qed.

Lemma logout_clears_session_cookie_witness :
  exists options,
    fst (Cookies.logout (str "app_session_id")
           {| Cookies.protocol := Some (str "http");
              Cookies.forwardedProto := Cookies.Text (str "http, HTTPS ") |}) =
      [{| Cookies.cookieName := str "app_session_id";
          Cookies.cookieOptions := options |}] /\
    Cookies.secure options = true.
Proof.
  destruct (logout_clears_session_cookie (str "app_session_id")
              (Some (str "http")) (Cookies.Text (str "http, HTTPS ")))
    as (options & Run & _ & _ & _ & _ & _ & Forwarded).
  exists options. split; [now rewrite Run|].
  destruct Forwarded as (_ & Listed & _); [discriminate|].
  rewrite (Listed [str "http"; str " HTTPS "]); try reflexivity.
  - discriminate.
  - repeat constructor.
  - discriminate.
Defined.

Lemma code_46 (c : ascii) : (code c =? 46) = true -> c = "."%char.
Proof.
  intros H. apply Nat.eqb_eq in H. unfold code in H.
  rewrite <- (ascii_nat_embedding c), H. reflexivity.
Qed.

(** [\d{1,3}] then [k] accepts exactly the texts that split into one to
    three digits and a rest that [k] accepts. *)
Lemma digits13_split (k : jsString -> bool) (s : jsString) :
  Cookies.digits13 k s = true <->
  exists g rest, s = g ++ rest /\ Cookies.octetLike g = true /\ k rest = true.
Proof.
  unfold Cookies.digits13, Cookies.digitThen, Cookies.octetLike. split.
  - destruct s as [|c1 s1]; [discriminate|].
    intros H. apply andb_true_iff in H as [D1 H].
    apply orb_true_iff in H as [H|K1].
    + destruct s1 as [|c2 s2]; [discriminate|].
      apply andb_true_iff in H as [D2 H].
      apply orb_true_iff in H as [H|K2].
      * destruct s2 as [|c3 s3]; [discriminate|].
        apply andb_true_iff in H as [D3 K3].
        exists [c1; c2; c3], s3. simpl. now rewrite D1, D2, D3.
      * exists [c1; c2], s2. simpl. now rewrite D1, D2.
    + exists [c1], s1. simpl. now rewrite D1.
  - intros (g & rest & -> & Hg & Hk).
    apply andb_true_iff in Hg as [Hlen Hd].
    apply andb_true_iff in Hlen as [Hmin Hmax].
    apply Nat.leb_le in Hmin, Hmax.
    destruct g as [|c1 [|c2 [|c3 [|c4 g]]]]; simpl in Hmin, Hmax; try lia;
      cbn [forallb] in Hd; cbn [app]; cbv beta iota.
    + rewrite andb_true_r in Hd. rewrite Hd, Hk. cbn [andb].
      apply orb_true_r.
    + apply andb_true_iff in Hd as [D1 D2]. rewrite andb_true_r in D2.
      rewrite D1, D2, Hk. cbn [andb]. now rewrite orb_true_r.
    + apply andb_true_iff in Hd as [D1 Hd]. apply andb_true_iff in Hd as [D2 D3].
      rewrite andb_true_r in D3. now rewrite D1, D2, D3, Hk.
Qed.

Lemma dotThen_split (k : jsString -> bool) (s : jsString) :
  Cookies.dotThen k s = true <-> exists rest, s = "."%char :: rest /\ k rest = true.
Proof.
  unfold Cookies.dotThen. split.
  - destruct s as [|c rest]; [discriminate|]. intros H.
    apply andb_true_iff in H as [Hc Hk]. apply code_46 in Hc. subst c.
    now exists rest.
  - intros (rest & -> & Hk). now rewrite Hk.
Qed.

(** X19. [isIpAddress] accepts a host exactly when it holds a colon or is
    four groups of one to three digits separated by dots; the value of a
    group is not looked at, so [999.999.999.999] is accepted. *)
Theorem isIpAddress_shape (host : jsString) :
  Cookies.isIpAddress host = true <->
  includes (str ":") host = true \/
  exists a b c d,
    host = a ++ str "." ++ b ++ str "." ++ c ++ str "." ++ d /\
    Cookies.octetLike a = true /\ Cookies.octetLike b = true /\
    Cookies.octetLike c = true /\ Cookies.octetLike d = true.
Proof.
  unfold Cookies.isIpAddress.
  assert (Quad : Cookies.dottedQuadTest host = true <->
    exists a b c d,
      host = a ++ str "." ++ b ++ str "." ++ c ++ str "." ++ d /\
      Cookies.octetLike a = true /\ Cookies.octetLike b = true /\
      Cookies.octetLike c = true /\ Cookies.octetLike d = true).
  { unfold Cookies.dottedQuadTest. split.
    - intros H.
      apply digits13_split in H as (a & r1 & -> & Ha & H).
      apply dotThen_split in H as (r1' & -> & H).
      apply digits13_split in H as (b & r2 & -> & Hb & H).
      apply dotThen_split in H as (r2' & -> & H).
      apply digits13_split in H as (c & r3 & -> & Hc & H).
      apply dotThen_split in H as (r3' & -> & H).
      apply digits13_split in H as (d & r4 & -> & Hd & H).
      destruct r4; [|discriminate]. rewrite app_nil_r.
      now exists a, b, c, d.
    - intros (a & b & c & d & -> & Ha & Hb & Hc & Hd).
      apply digits13_split. exists a, (str "." ++ b ++ str "." ++ c ++ str "." ++ d).
      repeat split; [exact Ha|].
      apply dotThen_split. eexists. split; [reflexivity|].
      apply digits13_split. exists b, (str "." ++ c ++ str "." ++ d).
      repeat split; [exact Hb|].
      apply dotThen_split. eexists. split; [reflexivity|].
      apply digits13_split. exists c, (str "." ++ d).
      repeat split; [exact Hc|].
      apply dotThen_split. eexists. split; [reflexivity|].
      apply digits13_split. exists d, []. rewrite app_nil_r. now repeat split. }
  destruct (Cookies.dottedQuadTest host) eqn:T.
  - split; [intros _; right; now apply Quad | reflexivity].
  - split; [now left|]. intros [H|H]; [exact H|].
    apply Quad in H. discriminate.
Qed.

Example isIpAddress_no_range_check :
  Cookies.isIpAddress (str "999.999.999.999") = true /\
  Cookies.isIpAddress (str "localhost:3000") = true /\
  Cookies.isIpAddress (str "1.2.3") = false.
Proof. repeat split. Qed.

(* ================================================================== *)
(** ** The procedures behind their schemas *)

Lemma parseWord_Some (v : option Json) (s : jsString) :
  Procedures.parseWord v = Some s -> v = Some (JString s) /\ s <> [].
Proof.
  destruct v as [[| | |t| |]|]; simpl; try discriminate.
  destruct t as [|c t]; simpl; [discriminate|].
  intros H; injection H as <-. split; [reflexivity|discriminate].
Qed.

Lemma parseDifficulty_Some (v : option Json) (d : jsString) :
  Procedures.parseDifficulty v = Some d ->
  In d Procedures.levels /\ (v = None -> d = str "medium").
Proof.
  destruct v as [[| | |t| |]|]; cbn [Procedures.parseDifficulty];
    try discriminate.
  - destruct (existsb (eqString t) Procedures.levels) eqn:E; [|discriminate].
    intros H; injection H as <-.
    apply existsb_exists in E as (x & Hin & Heq).
    apply eqString_true in Heq. subst x. split; [exact Hin|discriminate].
  - intros H; injection H as <-. split; [right; now left|reflexivity].
Qed.

Lemma levels_own_instruction (host : Host) (d : jsString) :
  In d Procedures.levels ->
  ownProperty d difficultyInstructions = Some (instructionFor host d).
Proof.
  intros [<-|[<-|[<-|[]]]]; reflexivity.
Qed.

(** X20. The [generateSentence] procedure answers or refuses, and never
    fails.  A refused input costs nothing: no draw, no request.  An
    answer is for a word that is not empty and a difficulty among easy,
    medium and hard, whose instruction is the text of the table: no
    other difficulty, the name of an inherited property included, gets
    past the schema.  An empty word is refused; a missing difficulty is
    medium. *)
Theorem generateSentence_behind_schema (host : Host) (input : option Json)
  (w : World) :
  (Procedures.generateSentence host input w = (Procedures.BadRequest, w) \/
   exists r w',
     Procedures.generateSentence host input w = (Procedures.Answered r, w') /\
     word r <> [] /\ In (difficulty r) Procedures.levels /\
     ownProperty (difficulty r) difficultyInstructions =
       Some (instructionFor host (difficulty r))) /\
  (forall fields,
     input = Some (JObject fields) ->
     lookupField (str "word") fields = Some (JString []) ->
     Procedures.generateSentence host input w = (Procedures.BadRequest, w)) /\
  (forall fields d,
     input = Some (JObject fields) ->
     lookupField (str "difficulty") fields = Some (JString d) ->
     ~ In d Procedures.levels ->
     Procedures.generateSentence host input w = (Procedures.BadRequest, w)) /\
  (forall fields aWord,
     input = Some (JObject fields) ->
     lookupField (str "word") fields = Some (JString aWord) ->
     aWord <> [] ->
     lookupField (str "difficulty") fields = None ->
     exists r w',
       Procedures.generateSentence host input w = (Procedures.Answered r, w') /\
       word r = aWord /\ difficulty r = str "medium").
Proof.
  unfold Procedures.generateSentence. repeat split.
  - destruct (Procedures.parseSentenceInput input) as [[aWord aDifficulty]|] eqn:P;
      [right|now left].
    unfold Procedures.parseSentenceInput in P.
    destruct input as [[| | | | |fields]|]; try discriminate.
    destruct (Procedures.parseWord _) as [pw|] eqn:W; [|discriminate].
    destruct (Procedures.parseDifficulty _) as [pd|] eqn:D; [|discriminate].
    injection P as <- <-.
    destruct (parseWord_Some _ _ W) as [_ Hw].
    destruct (parseDifficulty_Some _ _ D) as [Hd _].
    destruct (generateSentenceForWord_shape host pw (Some pd) w)
      as (r & w' & Run & Rw & Rd & _).
    rewrite Run. exists r, w'. cbn [defaulted] in Rd. rewrite Rw, Rd.
    repeat split; [exact Hw | exact Hd | now apply levels_own_instruction].
  - intros fields -> Hword. unfold Procedures.parseSentenceInput.
    now rewrite Hword.
  - intros fields d -> Hd Hnot. unfold Procedures.parseSentenceInput.
    rewrite Hd.
    destruct (Procedures.parseDifficulty (Some (JString d))) as [pd|] eqn:D.
    + destruct (parseDifficulty_Some _ _ D) as [Hin _].
      cbn [Procedures.parseDifficulty] in D.
      destruct (existsb _ _); [|discriminate].
      injection D as <-. contradiction.
    + now destruct (Procedures.parseWord _).
  - intros fields aWord -> Hword Hne Hd.
    unfold Procedures.parseSentenceInput. rewrite Hword, Hd.
    destruct aWord as [|c rest]; [congruence|]. cbn [Procedures.parseWord
      Procedures.parseDifficulty length Nat.leb].
    destruct (generateSentenceForWord_shape host (c :: rest) (Some (str "medium")) w)
      as (r & w' & Run & Rw & Rd & _).
    rewrite Run. now exists r, w'.
Qed.

Lemma generateSentence_behind_schema_witness :
  Procedures.generateSentence demoHost
    (Some (JObject [(str "word", JString (str "cat"));
                    (str "difficulty", JString (str "constructor"))]))
    (worldCompleting (str "A ___ purrs.")) =
  (Procedures.BadRequest, worldCompleting (str "A ___ purrs.")).
Proof.
  destruct (generateSentence_behind_schema demoHost
              (Some (JObject [(str "word", JString (str "cat"));
                              (str "difficulty", JString (str "constructor"))]))
              (worldCompleting (str "A ___ purrs.")))
    as (_ & _ & Unknown & _).
  apply (Unknown _ (str "constructor") eq_refl eq_refl).
  intros [H|[H|[H|[]]]]; discriminate H.
Defined.

Lemma parseEach_Some (items : list Json) (words : list jsString) :
  Procedures.parseEach items = Some words ->
  items = map JString words /\ Forall (fun aWord => aWord <> []) words.
Proof.
  revert words. induction items as [|item items IH]; intros words;
    cbn [Procedures.parseEach].
  - intros H; injection H as <-. split; [reflexivity|constructor].
  - destruct (Procedures.parseWord (Some item)) as [pw|] eqn:W; [|discriminate].
    destruct (Procedures.parseEach items) as [pws|]; [|discriminate].
    intros H; injection H as <-.
    destruct (parseWord_Some _ _ W) as [Hitem Hne].
    destruct (IH pws eq_refl) as [-> Hall].
    injection Hitem as ->. split; [reflexivity|now constructor].
Qed.

Lemma parseEach_refuses (items : list Json) (item : Json) :
  In item items -> Procedures.parseWord (Some item) = None ->
  Procedures.parseEach items = None.
Proof.
  induction items as [|i items IH]; [intros []|].
  cbn [Procedures.parseEach In].
  intros [->|Hin] Hbad.
  - now rewrite Hbad.
  - rewrite (IH Hin Hbad). now destruct (Procedures.parseWord (Some i)).
Qed.

(** X21. The [generateBatch] procedure never fails: it refuses the input,
    is still pending, or answers with [success:true] and results that
    carry the words of the input, in order, each not empty, with one
    difficulty among easy, medium and hard.  One empty word among the
    words makes the whole input refused, before any call is started; an
    empty list of words is answered with an empty list of results. *)
Theorem generateBatch_behind_schema (host : Host) (input : option Json)
  (worlds : nat -> World) (order : list nat) :
  (Procedures.generateBatch host input worlds order = Some Procedures.BadRequest \/
   Procedures.generateBatch host input worlds order = None \/
   exists results d,
     Procedures.generateBatch host input worlds order =
       Some (Procedures.Answered
               {| Batch.success := true; Batch.results := results |}) /\
     In d Procedures.levels /\
     Forall (fun r => word r <> [] /\ difficulty r = d) results /\
     exists fields,
       input = Some (JObject fields) /\
       lookupField (str "words") fields =
         Some (JArray (map JString (map word results)))) /\
  (forall fields items,
     input = Some (JObject fields) ->
     lookupField (str "words") fields = Some (JArray items) ->
     In (JString []) items ->
     Procedures.generateBatch host input worlds order = Some Procedures.BadRequest) /\
  (forall fields,
     input = Some (JObject fields) ->
     lookupField (str "words") fields = Some (JArray []) ->
     lookupField (str "difficulty") fields = None ->
     Procedures.generateBatch host input worlds order =
       Some (Procedures.Answered {| Batch.success := true; Batch.results := [] |})).
Proof.
  unfold Procedures.generateBatch. repeat split.
  - destruct (Procedures.parseBatchInput input) as [[words aDifficulty]|] eqn:P;
      [|now left].
    unfold Procedures.parseBatchInput in P.
    destruct input as [[| | | | |fields]|]; try discriminate.
    destruct (Procedures.parseWords _) as [pws|] eqn:W; [|discriminate].
    destruct (Procedures.parseDifficulty _) as [pd|] eqn:D; [|discriminate].
    injection P as <- <-.
    destruct (parseDifficulty_Some _ _ D) as [Hd _].
    destruct (lookupField (str "words") fields) as [[| | | |items|]|] eqn:L;
      try discriminate W.
    cbn [Procedures.parseWords] in W.
    destruct (parseEach_Some _ _ W) as [-> Hne].
    destruct (startAll_words host pd worlds pws 0)
      as (results & Started & Hwords & Hdiff).
    unfold generateBatch. rewrite Started.
    destruct (promiseAll_any results order) as [-> | ->]; [right; now left|].
    right; right. exists results, pd. split; [reflexivity|].
    split; [exact Hd|]. split.
    + rewrite <- Hwords in Hne. rewrite Forall_map in Hne.
      rewrite Forall_forall in *. intros r Hr. split; auto.
    + exists fields. split; [reflexivity|]. now rewrite Hwords.
  - intros fields items -> L Hin. unfold Procedures.parseBatchInput.
    rewrite L. cbn [Procedures.parseWords].
    now rewrite (parseEach_refuses items (JString []) Hin eq_refl).
  - intros fields -> L D. unfold Procedures.parseBatchInput.
    rewrite L, D. cbn [Procedures.parseWords Procedures.parseEach
      Procedures.parseDifficulty].
    unfold generateBatch. cbn [startAll]. unfold promiseAll.
    destruct order as [|i later]; [reflexivity|].
    cbn [length repeat]. 
    assert (S : forall o, settleAll (@nil (Completion SentenceResult)) o [] = Normal []).
    { induction o as [|j o IH]; [reflexivity|]. simpl. now destruct j. }
    now rewrite S.
Qed.

Lemma generateBatch_behind_schema_witness :
  Procedures.generateBatch demoHost
    (Some (JObject [(str "words", JArray [JString (str "cat"); JString []])]))
    (fun _ => worldCompleting (str "A ___ purrs.")) [0; 1] =
  Some Procedures.BadRequest.
Proof.
  destruct (generateBatch_behind_schema demoHost
              (Some (JObject [(str "words", JArray [JString (str "cat"); JString []])]))
              (fun _ => worldCompleting (str "A ___ purrs.")) [0; 1])
    as (_ & Refused & _).
  apply (Refused _ [JString (str "cat"); JString []] eq_refl eq_refl).
  right. now left.
Defined.

(* ================================================================== *)
(** ** The page *)

Lemma lower_keeps_whiteSpace (c : ascii) :
  isWhiteSpace (toLowerCaseUnit c) = isWhiteSpace c.
Proof. by_code_unit c. Qed.

Lemma lower_unit_idempotent (c : ascii) :
  toLowerCaseUnit (toLowerCaseUnit c) = toLowerCaseUnit c.
Proof. by_code_unit c. Qed.

Lemma toLowerCase_idempotent (s : jsString) :
  toLowerCase (toLowerCase s) = toLowerCase s.
Proof.
  unfold toLowerCase. rewrite map_map. apply map_ext.
  intros c. apply lower_unit_idempotent.
Qed.

Lemma trimStart_lower (s : jsString) :
  trimStart (toLowerCase s) = toLowerCase (trimStart s).
Proof.
  induction s as [|c s IH]; [reflexivity|]. simpl.
  rewrite lower_keeps_whiteSpace. now destruct (isWhiteSpace c).
Qed.

Lemma trim_lower (s : jsString) : trim (toLowerCase s) = toLowerCase (trim s).
Proof.
  unfold trim, trimEnd. rewrite trimStart_lower.
  unfold toLowerCase. rewrite <- map_rev.
  fold (toLowerCase (rev (trimStart s))). rewrite trimStart_lower.
  unfold toLowerCase. now rewrite map_rev.
Qed.

(** What [addWord] stores is trimmed and in lower case. *)
Lemma stored_word_normal (input : jsString) :
  trim (toLowerCase (trim input)) = toLowerCase (trim input) /\
  toLowerCase (toLowerCase (trim input)) = toLowerCase (trim input).
Proof.
  split; [|apply toLowerCase_idempotent].
  now rewrite trim_lower, trim_idempotent.
Qed.

Lemma existsb_eqString (x : jsString) (ws : list jsString) :
  existsb (eqString x) ws = true <-> In x ws.
Proof.
  rewrite existsb_exists. split.
  - intros (y & Hin & E). apply eqString_true in E. now subst.
  - intros H. exists x. split; [exact H|apply eqString_refl].
Qed.

Lemma removeAt_In (index : nat) (ws : list jsString) (x : jsString) :
  In x (Home.removeAt index ws) -> In x ws.
Proof.
  revert index. induction ws as [|y ws IH]; intros [|i]; simpl; auto.
  intros [->|H]; [now left|right; eauto].
Qed.

Lemma removeAt_NoDup (index : nat) (ws : list jsString) :
  NoDup ws -> NoDup (Home.removeAt index ws).
Proof.
  revert index. induction ws as [|y ws IH]; intros [|i] H; simpl;
    try constructor; inversion H as [|? ? Hnot Hrest]; subst; auto.
  - intros Hin. apply Hnot. eapply removeAt_In, Hin.
Qed.

Lemma removeAt_Forall (P : jsString -> Prop) (index : nat) (ws : list jsString) :
  Forall P ws -> Forall P (Home.removeAt index ws).
Proof.
  rewrite !Forall_forall. intros H x Hin. apply H. eapply removeAt_In, Hin.
Qed.

(** X22. The word list of the page stays tidy under [addWord],
    [removeWord] and [clearWords]: no word twice, none empty, each trimmed
    and in lower case.  [addWord] either leaves the list as it is, with a
    toast, or appends the input trimmed and in lower case and empties the
    input; typing the same text again and adding it changes nothing. *)
Theorem word_list_stays_tidy (st : Home.State) :
  Home.Tidy (Home.words st) ->
  Home.Tidy (Home.words (Home.addWord st)) /\
  (forall index, Home.Tidy (Home.words (Home.removeWord index st))) /\
  Home.Tidy (Home.words (Home.clearWords st)) /\
  ((Home.words (Home.addWord st) = Home.words st /\
    exists t, Home.toasts (Home.addWord st) = Home.toasts st ++ [t]) \/
   (Home.words (Home.addWord st) =
      Home.words st ++ [toLowerCase (trim (Home.wordInput st))] /\
    Home.wordInput (Home.addWord st) = [] /\
    Home.toasts (Home.addWord st) = Home.toasts st)) /\
  (forall value,
     Home.words (Home.addWord (Home.typeWord value
                    (Home.addWord (Home.typeWord value st)))) =
     Home.words (Home.addWord (Home.typeWord value st))).
Proof.
  intros [Hnd Hall]. repeat split.
  - unfold Home.addWord.
    destruct (toLowerCase (trim (Home.wordInput st))) as [|c rest] eqn:E;
      [exact Hnd|].
    destruct (existsb _ (Home.words st)) eqn:Seen; [exact Hnd|].
    cbn [Home.words]. apply NoDup_app; [exact Hnd|repeat constructor; intros []|].
    intros a Ha [<-|[]].
    apply existsb_eqString in Ha. congruence.
  - unfold Home.addWord.
    destruct (toLowerCase (trim (Home.wordInput st))) as [|c rest] eqn:E;
      [exact Hall|].
    destruct (existsb _ (Home.words st)); [exact Hall|].
    cbn [Home.words]. apply Forall_app. split; [exact Hall|].
    constructor; [|constructor]. rewrite <- E.
    destruct (stored_word_normal (Home.wordInput st)) as [T L].
    repeat split; [rewrite E; discriminate | exact T | exact L].
  - now apply removeAt_NoDup.
  - now apply removeAt_Forall.
  - constructor.
  - constructor.
  - unfold Home.addWord.
    destruct (toLowerCase (trim (Home.wordInput st))) as [|c rest];
      [left; split; [reflexivity|eexists; reflexivity]|].
    destruct (existsb _ (Home.words st));
      [left; split; [reflexivity|eexists; reflexivity]|].
    right. repeat split.
  - intros value. unfold Home.addWord at 1.
    cbn [Home.typeWord Home.wordInput Home.words].
    destruct (toLowerCase (trim value)) as [|c rest] eqn:E; [reflexivity|].
    assert (Seen : existsb (eqString (c :: rest))
                     (Home.words (Home.addWord (Home.typeWord value st))) = true).
    { apply existsb_eqString. unfold Home.addWord.
      cbn [Home.typeWord Home.wordInput Home.words]. rewrite E.
      destruct (existsb (eqString (c :: rest)) (Home.words st)) eqn:Old.
      - now apply existsb_eqString.
      - cbn [Home.words]. apply in_or_app. right. now left. }
    now rewrite Seen.
Qed.

Lemma word_list_stays_tidy_witness :
  Home.words (Home.addWord (Home.typeWord (str "  Apple ")
                (Home.addWord (Home.typeWord (str "  Apple ") Home.initial)))) =
  [str "apple"].
Proof.
  destruct (word_list_stays_tidy Home.initial) as (_ & _ & _ & _ & Again).
  - split; constructor.
  - rewrite (Again (str "  Apple ")). reflexivity.
Defined.

Lemma parseEach_accepts (ws : list jsString) :
  Forall (fun aWord => aWord <> []) ws ->
  Procedures.parseEach (map JString ws) = Some ws.
Proof.
  induction ws as [|x ws IH]; intros H; [reflexivity|].
  inversion H as [|? ? Hx Hws]; subst.
  cbn [map Procedures.parseEach]. rewrite (IH Hws).
  destruct x as [|c x]; [congruence|]. reflexivity.
Qed.

Lemma parseDifficulty_accepts (d : jsString) :
  In d Procedures.levels ->
  Procedures.parseDifficulty (Some (JString d)) = Some d.
Proof. intros [<-|[<-|[<-|[]]]]; reflexivity. Qed.

(** X23. A word list as the page builds it is never refused by the
    [generateBatch] procedure: with one of the three difficulties of the
    selector, the procedure is pending or answers, and once every call has
    settled, in any order, it answers with results that carry the words of
    the list in order. *)
Theorem tidy_list_passes_schema (host : Host) (ws : list jsString)
  (aDifficulty : jsString) (worlds : nat -> World) (order : list nat) :
  Home.Tidy ws ->
  In aDifficulty Procedures.levels ->
  Procedures.generateBatch host (Home.batchInput ws aDifficulty) worlds order
    <> Some Procedures.BadRequest /\
  (Permutation order (seq 0 (length ws)) ->
   exists results,
     Procedures.generateBatch host (Home.batchInput ws aDifficulty) worlds order =
       Some (Procedures.Answered
               {| Batch.success := true; Batch.results := results |}) /\
     map word results = ws /\
     Forall (fun r => difficulty r = aDifficulty) results).
Proof.
  intros [_ Hall] Hd.
  assert (Hne : Forall (fun aWord => aWord <> []) ws).
  { rewrite Forall_forall in *. intros x Hx. now apply Hall. }
  assert (P : Procedures.parseBatchInput (Home.batchInput ws aDifficulty) =
              Some (ws, aDifficulty)).
  { unfold Procedures.parseBatchInput, Home.batchInput.
    change (lookupField (str "words") _)
      with (Some (JArray (map JString ws))).
    change (lookupField (str "difficulty") _)
      with (Some (JString aDifficulty)).
    cbn [Procedures.parseWords].
    now rewrite (parseEach_accepts ws Hne), (parseDifficulty_accepts _ Hd). }
  unfold Procedures.generateBatch. rewrite P.
  destruct (startAll_words host aDifficulty worlds ws 0)
    as (values & Started & Hwords & Hdiff).
  unfold generateBatch. rewrite Started. split.
  - destruct (promiseAll_any values order) as [-> | ->]; discriminate.
  - intros Hperm. rewrite promiseAll_fulfilled.
    + now exists values.
    + rewrite <- Hwords in Hperm. now rewrite length_map in Hperm.
Qed.

Lemma tidy_list_passes_schema_witness :
  exists results,
    Procedures.generateBatch demoHost
      (Home.batchInput [str "apple"; str "book"] (str "hard"))
      (fun _ => worldCompleting (str "Read the ___ now.")) [1; 0] =
      Some (Procedures.Answered
              {| Batch.success := true; Batch.results := results |}) /\
    map word results = [str "apple"; str "book"].
Proof.
  destruct (tidy_list_passes_schema demoHost [str "apple"; str "book"]
              (str "hard") (fun _ => worldCompleting (str "Read the ___ now."))
              [1; 0]) as [_ Settled].
  - split.
    + repeat constructor; simpl; intuition discriminate.
    + repeat constructor; discriminate.
  - right; right; now left.
  - destruct Settled as (results & Run & Hwords & _); [apply perm_swap|].
    now exists results.
Defined.

Lemma renumberFrom_nth (from : nat) (items : list Home.Sentence) (i : nat)
  (s : Home.Sentence) :
  nth_error items i = Some s ->
  exists s',
    nth_error (Home.renumberFrom from items) i = Some s' /\
    Home.id s' = S (from + i) /\ Home.word s' = Home.word s.
Proof.
  revert from i. induction items as [|item items IH]; intros from [|i] H;
    try discriminate H; simpl in H.
  - injection H as <-. eexists. split; [reflexivity|].
    cbn [Home.id Home.word]. split; [lia|reflexivity].
  - destruct (IH (S from) i H) as (s' & Hn & Hid & Hw).
    exists s'. simpl. repeat split; [exact Hn | lia | exact Hw].
Qed.

Lemma renumberFrom_length (from : nat) (items : list Home.Sentence) :
  length (Home.renumberFrom from items) = length items.
Proof.
  revert from. induction items as [|item items IH]; intros from; simpl;
    [reflexivity|]. now rewrite IH.
Qed.

(** X24. After the sentences are renumbered, whatever order the shuffle
    left, [checkAnswers] judges the sentence shown at position [i] against
    the answer typed at position [i]: it is correct exactly when the
    answer, trimmed and in lower case, is the word in lower case.  The
    check shows one result per sentence, and when every answer is the word
    of its sentence the score is all of them. *)
Theorem checkAnswers_aligns_answers (st : Home.State)
  (shuffled : list Home.Sentence) :
  shuffled <> [] ->
  Home.sentences st = Home.reorderedSentences shuffled ->
  Home.showResults (Home.checkAnswers st) = true /\
  length (Home.checkResults (Home.checkAnswers st)) = length shuffled /\
  (forall i s,
     nth_error shuffled i = Some s ->
     exists c,
       nth_error (Home.checkResults (Home.checkAnswers st)) i = Some c /\
       Home.checkedWord c = Home.word s /\
       (Home.correct c = true <->
        toLowerCase (trim match Home.lookupAnswer i (Home.userAnswers st) with
                          | Some a => a
                          | None => []
                          end) = toLowerCase (Home.word s))) /\
  ((forall i s,
      nth_error shuffled i = Some s ->
      exists a, Home.lookupAnswer i (Home.userAnswers st) = Some a /\
                toLowerCase (trim a) = toLowerCase (Home.word s)) ->
   Home.toasts (Home.checkAnswers st) =
     Home.toasts st ++ [Home.ToastScore (length shuffled) (length shuffled)]).
Proof.
  intros Hne Hs. unfold Home.checkAnswers. rewrite Hs.
  unfold Home.reorderedSentences.
  destruct (Home.renumberFrom 0 shuffled) as [|s0 rest] eqn:R.
  { apply (f_equal (@length _)) in R. rewrite renumberFrom_length in R.
    destruct shuffled; [congruence|discriminate]. }
  rewrite <- R. clear R s0 rest.
  cbn [Home.toast Home.showResults Home.checkResults Home.toasts].
  assert (Nth : forall i s,
    nth_error shuffled i = Some s ->
    exists c,
      nth_error (map (Home.check (Home.userAnswers st))
                   (Home.renumberFrom 0 shuffled)) i = Some c /\
      Home.checkedWord c = Home.word s /\
      Home.correct c =
        eqString (toLowerCase (trim match Home.lookupAnswer i (Home.userAnswers st) with
                                    | Some a => a
                                    | None => []
                                    end)) (toLowerCase (Home.word s))).
  { intros i s Hi.
    destruct (renumberFrom_nth 0 shuffled i s Hi) as (s' & Hn & Hid & Hw).
    eexists. rewrite nth_error_map, Hn. split; [reflexivity|].
    unfold Home.check. cbn [Home.checkedWord Home.correct].
    rewrite Hid, Hw. split; reflexivity. }
  split; [reflexivity|]. split; [|split].
  - now rewrite length_map, renumberFrom_length.
  - intros i s H. destruct (Nth i s H) as (c & Hc & Hw & Hcorrect).
    exists c. split; [exact Hc|]. split; [exact Hw|]. split.
    + rewrite Hcorrect. apply eqString_true.
    + rewrite Hcorrect. intros ->. apply eqString_refl.
  - intros Perfect. f_equal. f_equal.
    rewrite length_map, renumberFrom_length.
    rewrite forallb_filter_id; [now rewrite length_map, renumberFrom_length|].
    apply forallb_forall. intros c Hc.
    apply In_nth_error in Hc as (i & Hi).
    assert (Hlt : i < length shuffled).
    { rewrite <- (renumberFrom_length 0), <- (length_map (Home.check (Home.userAnswers st))).
      apply nth_error_Some. congruence. }
    destruct (nth_error shuffled i) as [s|] eqn:Es;
      [|apply nth_error_None in Es; lia].
    destruct (Nth i s Es) as (c' & Hc' & _ & Hcorrect).
    rewrite Hi in Hc'. injection Hc' as <-.
    destruct (Perfect i s Es) as (a & Ha & Hmatch).
    rewrite Hcorrect, Ha, Hmatch. apply eqString_refl.
Qed.

Lemma checkAnswers_aligns_answers_witness :
  Home.toasts
    (Home.checkAnswers
       (Home.typeAnswer 0 (str " Cat ")
          {| Home.words := [str "cat"]; Home.wordInput := [];
             Home.sentences :=
               Home.reorderedSentences
                 [{| Home.id := 7; Home.word := str "cat";
                     Home.sentence := str "A ___ purrs.";
                     Home.answered := false; Home.aiGenerated := true;
                     Home.fallback := false |}];
             Home.userAnswers := []; Home.checkResults := [];
             Home.showResults := false; Home.toasts := [] |})) =
  [Home.ToastScore 1 1].
Proof.
  match goal with |- Home.toasts (Home.checkAnswers ?st) = _ =>
    destruct (checkAnswers_aligns_answers st
                [{| Home.id := 7; Home.word := str "cat";
                    Home.sentence := str "A ___ purrs.";
                    Home.answered := false; Home.aiGenerated := true;
                    Home.fallback := false |}])
      as (_ & _ & _ & Perfect)
  end.
  - discriminate.
  - reflexivity.
  - rewrite Perfect; [reflexivity|].
    intros [|i] s H; [|destruct i; discriminate H].
    injection H as <-. exists (str " Cat "). split; reflexivity.
Defined.
